(** * PyTCP: the inbound ARP handler, the packet flows and the daytime
      service, embedded in Rocq.

    The development follows the layout of the repository:
    - [Arp] embeds [arp/phrx.py] ([_phrx_arp]);
    - [Daytime] embeds the sending loop of [examples/tcp_daytime_service.py];
    - [Reassembly] and [Flows] model the fragment engines and the receive
      and transmit paths that [tests/packet_flows_rx_tx.py] drives;
    - [Examples] holds the addresses and packets of the worked examples;
    - [DaytimeService] and [Discard] embed [service] of
      [examples/tcp_daytime_service.py] and [examples/udp_discard_service.py]
      call by call;
    - [Harness] embeds the capture of transmitted frames that [setUp] of
      [tests/packet_flows_rx_tx.py] installs.
    The definitions come first, the proofs follow them.  *)

From Stdlib Require Import ZArith Lia.
From stdpp Require Import base decidable countable gmap strings list.

Set Default Proof Using "Type".

(** ** Address types *)

(** An IPv4 address is its 32-bit value, a MAC address its 48-bit value. *)
Record Ip4Address := mkIp4 { ip4_int : N }.
Record MacAddress := mkMac { mac_int : N }.

#[global] Instance Ip4Address_eq_dec : EqDecision Ip4Address.
Proof. solve_decision. Defined.
#[global] Instance MacAddress_eq_dec : EqDecision MacAddress.
Proof. solve_decision. Defined.
#[global] Instance Ip4Address_countable : Countable Ip4Address.
Proof. apply (inj_countable' ip4_int mkIp4). by intros []. Defined.
#[global] Instance MacAddress_countable : Countable MacAddress.
Proof. apply (inj_countable' mac_int mkMac). by intros []. Defined.

(** [Ip4Address("0.0.0.0")] *)
Definition ip4_unspecified : Ip4Address := mkIp4 0.

(** Modelled from the spec: [MacAddress.is_broadcast] ([lib/mac_address.py]
    is not among the sources); the broadcast predicate of the 48-bit
    address type, true on ff:ff:ff:ff:ff:ff only. *)
Definition is_broadcast (m : MacAddress) : bool :=
  bool_decide (mac_int m = 0xFFFFFFFFFFFF%N).

(** An [Ip4Host] is an (address, prefix length) pair, with the gateway of
    its network when it has one. *)
Record Ip4Host := mkIp4Host {
  address : Ip4Address;
  prefix_len : N;
  gateway : option Ip4Address
}.

(** ** arp/phrx.py *)

Module Arp.

(** Modelled from the spec: the operation codes of [arp/ps.py] (the module
    is not among the sources); the wire format is RFC 826, where a request
    is 1 and a reply is 2. *)
Definition ARP_OP_REQUEST : N := 1.
Definition ARP_OP_REPLY : N := 2.

(** The parsed views [packet_rx.ether] and [packet_rx.arp]. *)
Record EtherView := mkEther { dst : MacAddress; src : MacAddress }.

Record ArpView := mkArp {
  oper : N;
  sha : MacAddress;
  spa : Ip4Address;
  tha : MacAddress;
  tpa : Ip4Address
}.

(** [PacketRx]: the frame, its tracker, the views filled in as the pipeline
    descends, and the parse-failure slot (a string, empty when nothing
    failed).  [arp] is [None] until a parser has attached the view. *)
Record PacketRx := mkPacketRx {
  frame : list Byte.byte;
  tracker : N;
  ether : EtherView;
  arp : option ArpView;
  parse_failed : string
}.

(** The [config] module, as far as [_phrx_arp] reads it. *)
Record Config := mkConfig {
  arp_cache_update_from_direct_request : bool;
  arp_cache_update_from_gratuitious_reply : bool
}.

(** The attributes of the packet handler ([self]) that [_phrx_arp] reads or
    writes.  [arp_probe_unicast_conflict] is the set of addresses for which
    an ARP probe was answered. *)
Record PacketHandler := mkPacketHandler {
  mac_unicast : MacAddress;
  ip4_unicast : list Ip4Address;
  ip4_host_candidate : list Ip4Host;
  arp_probe_unicast_conflict : gset Ip4Address
}.

(** The text of a log line, by the place that writes it. *)
Inductive LogMsg :=
| MsgParseFailed (t : N) (reason : string)
| MsgPacket (t : N) (a : ArpView)
| MsgIpConflict (t : N) (ip : Ip4Address) (mac : MacAddress)
| MsgFromDirectRequest (t : N) (ip : Ip4Address) (mac : MacAddress)
| MsgProbeConflict (t : N) (ip : Ip4Address) (mac : MacAddress)
| MsgFromDirectReply (t : N) (ip : Ip4Address) (mac : MacAddress)
| MsgFromGratuitousReply (t : N) (ip : Ip4Address) (mac : MacAddress).

(** The keyword arguments of a call of [self._phtx_arp]. *)
Record PhtxArpArgs := mkPhtxArp {
  ether_src : MacAddress;
  ether_dst : MacAddress;
  arp_oper : N;
  arp_sha : MacAddress;
  arp_spa : Ip4Address;
  arp_tha : MacAddress;
  arp_tpa : Ip4Address;
  echo_tracker : N
}.

(** What the handler does to its collaborators, in program order: a line
    handed to [log], a frame handed to [self._phtx_arp], a mapping handed to
    [self.arp_cache.add_entry]. *)
Inductive Call :=
| Log (channel : string) (msg : LogMsg)
| PhtxArp (args : PhtxArpArgs)
| ArpCacheAddEntry (ip : Ip4Address) (mac : MacAddress).

(** How a call of the handler ends: it returns (with the handler's new
    attributes), or an attribute that no parser attached is read. *)
Inductive Outcome :=
| Returned (self' : PacketHandler)
| AttributeError.

Definition add_conflict (self : PacketHandler) (ip : Ip4Address) : PacketHandler :=
  {| mac_unicast := mac_unicast self;
     ip4_unicast := ip4_unicast self;
     ip4_host_candidate := ip4_host_candidate self;
     arp_probe_unicast_conflict := {[ ip ]} ∪ arp_probe_unicast_conflict self |}.

(** Python's [x in xs] on a list. *)
Definition py_in `{EqDecision A} (x : A) (xs : list A) : bool :=
  bool_decide (x ∈ xs).

(** Truth value of a Python string: false on the empty string only. *)
Definition truthy (s : string) : bool := negb (String.eqb s "").

Section Handler.

(** [ArpParser(packet_rx)] ([arp/fpp.py] is not among the sources): it
    attaches the [arp] view to the packet or fills its parse-failure slot. *)
Variable ArpParser : PacketRx -> PacketRx.
Variable config : Config.

(** The branch for [oper == ARP_OP_REQUEST]. *)
Definition on_request (self : PacketHandler) (p : PacketRx) (a : ArpView)
  : Outcome * list Call :=
  if py_in (spa a) (ip4_unicast self) then
    (Returned self, [Log "arp" (MsgIpConflict (tracker p) (spa a) (sha a))])
  else if py_in (tpa a) (ip4_unicast self) then
    (Returned self,
     PhtxArp {| ether_src := mac_unicast self;
                ether_dst := sha a;
                arp_oper := ARP_OP_REPLY;
                arp_sha := mac_unicast self;
                arp_spa := tpa a;
                arp_tha := sha a;
                arp_tpa := spa a;
                echo_tracker := tracker p |}
     :: (if arp_cache_update_from_direct_request config
         then [Log "arp" (MsgFromDirectRequest (tracker p) (spa a) (sha a));
               ArpCacheAddEntry (spa a) (sha a)]
         else []))
  else (Returned self, []).

(** The branch for [oper == ARP_OP_REPLY]. *)
Definition on_reply (self : PacketHandler) (p : PacketRx) (a : ArpView)
  : Outcome * list Call :=
  if bool_decide (dst (ether p) = mac_unicast self)
     && (py_in (spa a) (address <$> ip4_host_candidate self)
         && (bool_decide (tha a = mac_unicast self)
             && bool_decide (tpa a = ip4_unspecified)))
  then
    (Returned (add_conflict self (spa a)),
     [Log "arp" (MsgProbeConflict (tracker p) (spa a) (sha a))])
  else if bool_decide (dst (ether p) = mac_unicast self) then
    (Returned self,
     [Log "arp" (MsgFromDirectReply (tracker p) (spa a) (sha a));
      ArpCacheAddEntry (spa a) (sha a)])
  else if is_broadcast (dst (ether p))
          && (bool_decide (spa a = tpa a)
              && arp_cache_update_from_gratuitious_reply config)
  then
    (Returned self,
     [Log "arp" (MsgFromGratuitousReply (tracker p) (spa a) (sha a));
      ArpCacheAddEntry (spa a) (sha a)])
  else (Returned self, []).

(** [_phrx_arp(self, packet_rx)]: the outcome and the calls made, in order. *)
Definition _phrx_arp (self : PacketHandler) (packet_rx : PacketRx)
  : Outcome * list Call :=
  let p := ArpParser packet_rx in
  if truthy (parse_failed p) then
    (Returned self, [Log "arp" (MsgParseFailed (tracker p) (parse_failed p))])
  else
    match arp p with
    | None => (AttributeError, [])
    | Some a =>
        let '(out, calls) :=
          if bool_decide (oper a = ARP_OP_REQUEST) then on_request self p a
          else if bool_decide (oper a = ARP_OP_REPLY) then on_reply self p a
          else (Returned self, [])
        in (out, Log "arp" (MsgPacket (tracker p) a) :: calls)
    end.

End Handler.

(** Projections of a call trace. *)
Definition replies (cs : list Call) : list PhtxArpArgs :=
  omap (λ c, match c with PhtxArp a => Some a | _ => None end) cs.

Definition cache_adds (cs : list Call) : list (Ip4Address * MacAddress) :=
  omap (λ c, match c with ArpCacheAddEntry i m => Some (i, m) | _ => None end) cs.

Definition log_lines (cs : list Call) : list LogMsg :=
  omap (λ c, match c with Log _ m => Some m | _ => None end) cs.

End Arp.

(** ** examples/tcp_daytime_service.py *)

Module Daytime.

(** The update of the loop counter, [min(message_count, message_count - 1)],
    on Python's unbounded integers. *)
Definition next_count (message_count : Z) : Z :=
  Z.min message_count (message_count - 1).

(** Why the sending loop was left. *)
Inductive Exit :=
| ThreadStopped       (* [self._run_thread] was false at the loop test *)
| CountExhausted      (* [message_count] was zero at the loop test *)
| SendError.          (* [send] raised [OSError] and the loop broke *)

Section Service.

(** What the loop sees of the outside at its [i]-th round: the stop flag
    another thread may have cleared, and whether [send] succeeds. *)
Variable run_thread : nat -> bool.
Variable send_ok : nat -> bool.

(** The [while] loop of [service], from round [i] on.  The result is the
    reason for leaving the loop and the number of rounds completed, or
    [None] when [fuel] rounds did not suffice. *)
Fixpoint sending_loop (fuel i : nat) (message_count : Z) : option (Exit * nat) :=
  match fuel with
  | O => None
  | S fuel' =>
      if negb (run_thread i) then Some (ThreadStopped, i)
      else if (message_count =? 0)%Z then Some (CountExhausted, i)
      else if negb (send_ok i) then Some (SendError, i)
      else sending_loop fuel' (S i) (next_count message_count)
  end.

(** The value of [message_count] after [k] completed rounds. *)
Definition count_after (k : nat) (message_count : Z) : Z :=
  Nat.iter k next_count message_count.

End Service.

(** The default of the constructor's [message_count] argument. *)
Definition default_message_count : Z := (-1)%Z.

End Daytime.

(** ** The receive and transmit paths driven by tests/packet_flows_rx_tx.py

    The packet handler, the fragment engines and the frame codec are not
    among the sources: the test module drives them through [_phrx_ether]
    and pins their counters.  Their model below follows the specification
    (its sections 3, 4.2, 4.4 and 8) and the counter names of the tests. *)

Record Ip6Address := mkIp6 { ip6_int : N }.

#[global] Instance Ip6Address_eq_dec : EqDecision Ip6Address.
Proof. solve_decision. Defined.
#[global] Instance Ip6Address_countable : Countable Ip6Address.
Proof. apply (inj_countable' ip6_int mkIp6). by intros []. Defined.

Record Ip6Host := mkIp6Host {
  address6 : Ip6Address;
  prefix_len6 : N;
  gateway6 : option Ip6Address
}.

(** Modelled from the spec: the subnet arithmetic of the address types
    ([lib/ip4_address.py] and [lib/ip6_address.py] are not among the
    sources); an address lies in a host's network when the two agree on the
    first [prefix_len] bits. *)
Definition ip4_in_network (h : Ip4Host) (a : Ip4Address) : bool :=
  bool_decide (N.shiftr (ip4_int a) (32 - prefix_len h)
               = N.shiftr (ip4_int (address h)) (32 - prefix_len h)).

Definition ip6_in_network (h : Ip6Host) (a : Ip6Address) : bool :=
  bool_decide (N.shiftr (ip6_int a) (128 - prefix_len6 h)
               = N.shiftr (ip6_int (address6 h)) (128 - prefix_len6 h)).

Module Reassembly.

(** Modelled from the spec: the fragment reassembler (the fragment handling
    of [ip4/phrx.py] and [ip6_ext_frag/phrx.py] is not among the sources).
    A fragment carries its offset in units of eight bytes, the
    more-fragments flag and its payload. *)
Record Fragment := mkFragment {
  fr_offset : nat;
  fr_flag_mf : bool;
  fr_data : list Byte.byte
}.

(** Modelled from the spec: [FragmentFlow] (section 3): the received bytes
    indexed by their offset, the highest offset seen, the flag of the last
    fragment, and the total length that fragment fixes.  Expiry by timeout
    is left out: the scenarios deliver a flow's fragments within its
    lifetime. *)
Record FragmentFlow := mkFlow {
  ff_data : gmap nat Byte.byte;
  ff_highest : nat;
  ff_last : bool;
  ff_total_len : nat
}.

Definition ff_new : FragmentFlow :=
  {| ff_data := ∅; ff_highest := 0; ff_last := false; ff_total_len := 0 |}.

(** Copy [bs] into the buffer from position [pos] on; the last writer wins
    at each byte. *)
Fixpoint write_bytes (pos : nat) (bs : list Byte.byte) (buf : gmap nat Byte.byte)
  : gmap nat Byte.byte :=
  match bs with
  | [] => buf
  | b :: bs' => write_bytes (S pos) bs' (<[pos := b]> buf)
  end.

(** The bytes at [offset*8, offset*8 + payload_len) are copied into the
    flow's buffer; a fragment with MF=0 fixes the total length. *)
Definition ff_add (f : Fragment) (fl : FragmentFlow) : FragmentFlow :=
  let pos := fr_offset f * 8 in
  {| ff_data := write_bytes pos (fr_data f) (ff_data fl);
     ff_highest := Nat.max (ff_highest fl) pos;
     ff_last := ff_last fl || negb (fr_flag_mf f);
     ff_total_len := if fr_flag_mf f then ff_total_len fl
                     else pos + length (fr_data f) |}.

(** Completion: the last fragment was seen and the buffer covers
    [0, total_len) without a gap. *)
Definition ff_complete (fl : FragmentFlow) : bool :=
  ff_last fl
  && forallb (λ p, bool_decide (is_Some (ff_data fl !! p))) (seq 0 (ff_total_len fl)).

Definition ff_payload (fl : FragmentFlow) : list Byte.byte :=
  omap (λ p, ff_data fl !! p) (seq 0 (ff_total_len fl)).

Section Flows.
Context `{Countable K}.

(** Modelled from the spec: the reassembly step of the fragment engines
    (section 4.2; the code is not among the sources).  One fragment of the
    flow [key] arrives.  The completed datagram is handed on once: its flow
    is removed as it completes, so a fragment that arrives later opens a
    flow of its own. *)
Definition defragment (key : K) (f : Fragment) (flows : gmap K FragmentFlow)
  : gmap K FragmentFlow * option (list Byte.byte) :=
  let fl := ff_add f (default ff_new (flows !! key)) in
  if ff_complete fl then (delete key flows, Some (ff_payload fl))
  else (<[key := fl]> flows, None).


End Flows.

(** The fragments of a datagram cut into the consecutive pieces [chunks]:
    piece [k] starts where the pieces before it end, and all but the last
    carry MF=1. *)
Definition chunk_start (chunks : list (list Byte.byte)) (k : nat) : nat :=
  length (concat (take k chunks)).

Definition fragment_at (chunks : list (list Byte.byte)) (k : nat) : Fragment :=
  {| fr_offset := chunk_start chunks k / 8;
     fr_flag_mf := bool_decide (S k < length chunks);
     fr_data := default [] (chunks !! k) |}.

(** A fragmentation is well formed when no piece is empty and every piece
    but the last is a multiple of eight bytes long. *)
Definition well_cut (chunks : list (list Byte.byte)) : bool :=
  forallb (λ '(k, c), negb (bool_decide (length c = 0))
                      && (bool_decide (S k = length chunks)
                          || bool_decide (length c mod 8 = 0)))
          (imap pair chunks).

(** Whether position [p] of the datagram lies in piece [k], and whether it
    lies in one of the pieces [seen]. *)
Definition in_chunk (chunks : list (list Byte.byte)) (k p : nat) : bool :=
  bool_decide (chunk_start chunks k ≤ p
               < chunk_start chunks k + length (default [] (chunks !! k))).

Definition covered (chunks : list (list Byte.byte)) (seen : list nat) (p : nat) : bool :=
  existsb (λ k, in_chunk chunks k p) seen.

(** The flow that holds exactly the pieces [seen] of the datagram. *)
Definition holds (chunks : list (list Byte.byte)) (seen : list nat)
    (fl : FragmentFlow) : Prop :=
  (∀ p, ff_data fl !! p
        = if covered chunks seen p then concat chunks !! p else None)
  ∧ ff_last fl = bool_decide (pred (length chunks) ∈ seen)
  ∧ (pred (length chunks) ∈ seen → ff_total_len fl = length (concat chunks)).

(** Whether the arrivals [l] (indices of pieces) contain each of the [n]
    pieces. *)
Definition covers (n : nat) (l : list nat) : bool :=
  forallb (λ i, bool_decide (i ∈ l)) (seq 0 n).

(** How often a set of [n] pieces completes along the arrivals [order],
    when [seen] have arrived since the last completion. *)
Fixpoint completions (n : nat) (seen order : list nat) : nat :=
  match order with
  | [] => 0
  | k :: rest =>
      if covers n (k :: seen) then S (completions n [] rest)
      else completions n (k :: seen) rest
  end.

End Reassembly.

Module Flows.
Import Reassembly.

(** *** Counters *)

(** [PacketStatsRx] and [PacketStatsTx]: named counters, all zero at the
    start.  Two bundles are equal when they agree on every name; a counter
    that was never bumped is absent from the map.  The names are those the
    test module pins; where it pins none (drops, deliveries to an endpoint,
    destinations behind the gateway) the name follows their pattern. *)
Abbreviation PacketStats := (gmap string nat).

Definition stat (name : string) (s : PacketStats) : nat := default 0 (s !! name).

Definition bump (name : string) (s : PacketStats) : PacketStats :=
  <[name := S (stat name s)]> s.

(** *** Views and frames *)

Inductive IpAddress :=
| V4 (a : Ip4Address)
| V6 (a : Ip6Address).

#[global] Instance IpAddress_eq_dec : EqDecision IpAddress.
Proof. solve_decision. Defined.

Record UdpView := mkUdp {
  udp_sport : N;
  udp_dport : N;
  udp_data : list Byte.byte
}.

Record TcpView := mkTcp {
  tcp_sport : N;
  tcp_dport : N;
  tcp_seq : N;
  tcp_ack : N;
  tcp_flag_syn : bool;
  tcp_flag_ack : bool;
  tcp_flag_fin : bool;
  tcp_flag_rst : bool;
  tcp_data : list Byte.byte
}.

(** An IPv4 packet: addresses, protocol, identification, the MF flag, the
    fragment offset in units of eight bytes, and the payload bytes. *)
Record Ip4Packet := mkIp4Packet {
  ip4_src : Ip4Address;
  ip4_dst : Ip4Address;
  ip4_proto : N;
  ip4_id : N;
  ip4_flag_mf : bool;
  ip4_offset : nat;
  ip4_data : list Byte.byte
}.

(** What follows the IPv6 header: an upper-layer payload, or a Fragment
    extension header and the fragment's bytes. *)
Inductive Ip6Payload :=
| Ip6Upper (next : N) (data : list Byte.byte)
| Ip6ExtFrag (next : N) (offset : nat) (flag_mf : bool) (id : N)
             (data : list Byte.byte).

Record Ip6Packet := mkIp6Packet {
  ip6_src : Ip6Address;
  ip6_dst : Ip6Address;
  ip6_payload : Ip6Payload
}.

Inductive EtherPayload :=
| EtherIp4 (p : Ip4Packet)
| EtherIp6 (p : Ip6Packet)
| EtherOther (ether_type : N).

Record EtherFrame := mkEtherFrame {
  ether_dst : MacAddress;
  ether_src : MacAddress;
  ether_payload : EtherPayload
}.

Definition IP_PROTO_TCP : N := 6.
Definition IP_PROTO_UDP : N := 17.
Definition IP_PROTO_ICMP4 : N := 1.
Definition IP_PROTO_ICMP6 : N := 58.
Definition IP4_HEADER_LEN : nat := 20.
Definition IP6_HEADER_LEN : nat := 40.
Definition IP6_EXT_FRAG_LEN : nat := 8.
Definition UDP_ECHO_PORT : N := 7.

(** The frame codec above the IP layer ([udp/fpp.py], [tcp/fpa.py] and the
    like are not among the sources): parsers from the bytes of an IP payload
    to a view (checksum included, [None] on a parse failure) and assemblers
    back to bytes; the first two arguments are the source and destination
    addresses of the pseudo-header. *)
Record Codec := mkCodec {
  udp_parse : IpAddress → IpAddress → list Byte.byte → option UdpView;
  udp_assemble : IpAddress → IpAddress → UdpView → list Byte.byte;
  tcp_parse : IpAddress → IpAddress → list Byte.byte → option TcpView;
  tcp_assemble : IpAddress → IpAddress → TcpView → list Byte.byte;
  icmp_unreachable_port : IpAddress → IpAddress → list Byte.byte → list Byte.byte
}.

(** *** The stack *)

Inductive Family := AF_INET4 | AF_INET6 | AF_DUAL.

(** A bound endpoint; [None] as its address stands for the unspecified
    address of its family. *)
Record Socket := mkSocket {
  family : Family;
  local_ip : option IpAddress;
  local_port : N
}.

(** What one receive call reads and does not change: the addresses, the
    configuration, the resolved entries of the neighbour caches, and the
    endpoint tables. *)
Record Stack := mkStack {
  mac_address : MacAddress;
  mac_multicast : list MacAddress;
  ip4_host : list Ip4Host;
  ip4_multicast : list Ip4Address;
  ip6_host : list Ip6Host;
  ip6_multicast : list Ip6Address;
  TAP_MTU : nat;
  UDP_ECHO_NATIVE_DISABLE : bool;
  arp_cache : gmap Ip4Address MacAddress;
  nd_cache : gmap Ip6Address MacAddress;
  udp_sockets : list Socket;
  tcp_sessions : list (IpAddress * N * IpAddress * N);
  tcp_listening : list Socket
}.

(** A payload handed to an endpoint. *)
Inductive Delivery :=
| ToUdpSocket (s : Socket) (src : IpAddress) (u : UdpView)
| ToTcpSession (key : IpAddress * N * IpAddress * N) (t : TcpView)
| ToTcpListening (s : Socket) (src : IpAddress) (t : TcpView).

(** The state of the transmit path: its counters, the identification
    counters (one for IPv4, one per destination for IPv6), the frames put on
    the TX ring (oldest first), and the packets whose link-layer destination
    is not resolved yet. *)
Record TxState := mkTxState {
  packet_stats_tx : PacketStats;
  ip4_id_next : N;
  ip6_id_next : gmap Ip6Address N;
  tx_ring : list EtherFrame;
  l2_pending : list EtherPayload
}.

(** What a receive call changes: the receive counters, the fragment flows
    (keyed by source, destination, protocol and identification), the
    deliveries to endpoints, and the state of the transmit path, which the
    receive path enters to answer. *)
Record State := mkState {
  packet_stats_rx : PacketStats;
  ip4_frag_flows : gmap (Ip4Address * Ip4Address * N * N) FragmentFlow;
  ip6_frag_flows : gmap (Ip6Address * Ip6Address * N * N) FragmentFlow;
  delivered : list Delivery;
  tx : TxState
}.

(** The state of a stack that has seen no frame. *)
Definition fresh_tx : TxState :=
  {| packet_stats_tx := ∅; ip4_id_next := 0; ip6_id_next := ∅;
     tx_ring := []; l2_pending := [] |}.

Definition fresh : State :=
  {| packet_stats_rx := ∅; ip4_frag_flows := ∅; ip6_frag_flows := ∅;
     delivered := []; tx := fresh_tx |}.

Definition bump_tx (name : string) (t : TxState) : TxState :=
  {| packet_stats_tx := bump name (packet_stats_tx t);
     ip4_id_next := ip4_id_next t; ip6_id_next := ip6_id_next t;
     tx_ring := tx_ring t; l2_pending := l2_pending t |}.

Definition set_ip4_id_next (id : N) (t : TxState) : TxState :=
  {| packet_stats_tx := packet_stats_tx t;
     ip4_id_next := id; ip6_id_next := ip6_id_next t;
     tx_ring := tx_ring t; l2_pending := l2_pending t |}.

Definition set_ip6_id_next (ids : gmap Ip6Address N) (t : TxState) : TxState :=
  {| packet_stats_tx := packet_stats_tx t;
     ip4_id_next := ip4_id_next t; ip6_id_next := ids;
     tx_ring := tx_ring t; l2_pending := l2_pending t |}.

Definition enqueue (f : EtherFrame) (t : TxState) : TxState :=
  {| packet_stats_tx := packet_stats_tx t;
     ip4_id_next := ip4_id_next t; ip6_id_next := ip6_id_next t;
     tx_ring := tx_ring t ++ [f]; l2_pending := l2_pending t |}.

Definition park (p : EtherPayload) (t : TxState) : TxState :=
  {| packet_stats_tx := packet_stats_tx t;
     ip4_id_next := ip4_id_next t; ip6_id_next := ip6_id_next t;
     tx_ring := tx_ring t; l2_pending := l2_pending t ++ [p] |}.

Definition bump_rx (name : string) (st : State) : State :=
  {| packet_stats_rx := bump name (packet_stats_rx st);
     ip4_frag_flows := ip4_frag_flows st; ip6_frag_flows := ip6_frag_flows st;
     delivered := delivered st; tx := tx st |}.

Definition set_ip4_frag_flows
    (flows : gmap (Ip4Address * Ip4Address * N * N) FragmentFlow) (st : State) : State :=
  {| packet_stats_rx := packet_stats_rx st;
     ip4_frag_flows := flows; ip6_frag_flows := ip6_frag_flows st;
     delivered := delivered st; tx := tx st |}.

Definition set_ip6_frag_flows
    (flows : gmap (Ip6Address * Ip6Address * N * N) FragmentFlow) (st : State) : State :=
  {| packet_stats_rx := packet_stats_rx st;
     ip4_frag_flows := ip4_frag_flows st; ip6_frag_flows := flows;
     delivered := delivered st; tx := tx st |}.

Definition deliver (d : Delivery) (st : State) : State :=
  {| packet_stats_rx := packet_stats_rx st;
     ip4_frag_flows := ip4_frag_flows st; ip6_frag_flows := ip6_frag_flows st;
     delivered := delivered st ++ [d]; tx := tx st |}.

(** The receive path enters the transmit path. *)
Definition respond (f : TxState → TxState) (st : State) : State :=
  {| packet_stats_rx := packet_stats_rx st;
     ip4_frag_flows := ip4_frag_flows st; ip6_frag_flows := ip6_frag_flows st;
     delivered := delivered st; tx := f (tx st) |}.

(** *** Addresses of the stack *)

Definition ip4_is_multicast (a : Ip4Address) : bool :=
  bool_decide (N.shiftr (ip4_int a) 28 = 0xE%N).

Definition ip6_is_multicast (a : Ip6Address) : bool :=
  bool_decide (N.shiftr (ip6_int a) 120 = 0xFF%N).

(** The multicast MAC address derived from an IP multicast address. *)
Definition ip4_multicast_mac (a : Ip4Address) : MacAddress :=
  mkMac (N.lor 0x01005E000000 (N.land (ip4_int a) 0x7FFFFF)).

Definition ip6_multicast_mac (a : Ip6Address) : MacAddress :=
  mkMac (N.lor 0x333300000000 (N.land (ip6_int a) 0xFFFFFFFF)).

Definition ip4_limited_broadcast : Ip4Address := mkIp4 0xFFFFFFFF.

(** The broadcast address of a host's network. *)
Definition ip4_network_broadcast (h : Ip4Host) : Ip4Address :=
  mkIp4 (N.lor (ip4_int (address h)) (N.ones (32 - prefix_len h))).

(** Cut [data] into consecutive pieces of [size] bytes, the last one
    possibly shorter. *)
Definition split_chunks (size : nat) (data : list Byte.byte) : list (list Byte.byte) :=
  (λ k, take size (drop (k * size) data)) <$> seq 0 ((length data + size - 1) / size).

Definition family_accepts (f : Family) (ip : IpAddress) : bool :=
  match f, ip with
  | AF_INET4, V4 _ | AF_INET6, V6 _ | AF_DUAL, _ => true
  | _, _ => false
  end.

(** A socket bound to [port] matches a packet for [ip] when its family
    accepts the address and it is bound to [ip] or to the unspecified
    address. *)
Definition socket_matches (ip : IpAddress) (port : N) (s : Socket) : bool :=
  family_accepts (family s) ip
  && bool_decide (local_port s = port)
  && match local_ip s with
     | None => true
     | Some a => bool_decide (a = ip)
     end.

(** The datagram that bounces [u] back to its sender. *)
Definition udp_echo_of (u : UdpView) : UdpView :=
  {| udp_sport := udp_dport u; udp_dport := udp_sport u; udp_data := udp_data u |}.

Definition bool_to_N (b : bool) : N := if b then 1%N else 0%N.

(** Modelled from the spec: the RST/ACK segment that answers a segment no
    endpoint takes (the handler is not among the sources).  The spec fixes
    the two flags; the sequence numbers follow RFC 9293, which it names as
    the wire format: the reset acknowledges what the segment occupies of the
    sequence space, modulo 2^32. *)
Definition tcp_rst_ack_of (t : TcpView) : TcpView :=
  {| tcp_sport := tcp_dport t; tcp_dport := tcp_sport t;
     tcp_seq := 0;
     tcp_ack := (tcp_seq t + bool_to_N (tcp_flag_syn t)
                 + bool_to_N (tcp_flag_fin t)
                 + N.of_nat (length (tcp_data t))) mod 4294967296;
     tcp_flag_syn := false; tcp_flag_ack := true;
     tcp_flag_fin := false; tcp_flag_rst := true;
     tcp_data := [] |}.

Section Handlers.

Variable codec : Codec.
Variable stack : Stack.

(** *** Transmit path *)

Definition send_frame (mac : MacAddress) (payload : EtherPayload) (counter : string)
    (st : TxState) : TxState :=
  enqueue {| ether_dst := mac; ether_src := mac_address stack;
             ether_payload := payload |}
          (bump_tx counter st).

(** Modelled from the spec: the destination resolution of
    [protocols/ether/phtx.py] (not among the sources).  A multicast address
    maps to its multicast MAC, an address of the local network is looked up
    in the ARP cache, any other is sent to the gateway.  A packet whose
    destination is not resolved is parked. *)
Definition phtx_ether_ip4 (p : Ip4Packet) (st : TxState) : TxState :=
  let st := bump_tx "ether__dst_unspec__ip4_lookup" st in
  let dst := ip4_dst p in
  if ip4_is_multicast dst then
    send_frame (ip4_multicast_mac dst) (EtherIp4 p)
               "ether__dst_unspec__ip4_lookup__multicast__send" st
  else if existsb (λ h, ip4_in_network h dst) (ip4_host stack) then
    match arp_cache stack !! dst with
    | Some mac =>
        send_frame mac (EtherIp4 p)
          "ether__dst_unspec__ip4_lookup__locnet__arp_cache_hit__send" st
    | None => park (EtherIp4 p) st
    end
  else
    match head (omap gateway (ip4_host stack)) with
    | Some gw =>
        match arp_cache stack !! gw with
        | Some mac =>
            send_frame mac (EtherIp4 p)
              "ether__dst_unspec__ip4_lookup__extnet__gw_arp_cache_hit__send" st
        | None => park (EtherIp4 p) st
        end
    | None => st
    end.

Definition phtx_ether_ip6 (p : Ip6Packet) (st : TxState) : TxState :=
  let st := bump_tx "ether__dst_unspec__ip6_lookup" st in
  let dst := ip6_dst p in
  if ip6_is_multicast dst then
    send_frame (ip6_multicast_mac dst) (EtherIp6 p)
               "ether__dst_unspec__ip6_lookup__multicast__send" st
  else if existsb (λ h, ip6_in_network h dst) (ip6_host stack) then
    match nd_cache stack !! dst with
    | Some mac =>
        send_frame mac (EtherIp6 p)
          "ether__dst_unspec__ip6_lookup__locnet__nd_cache_hit__send" st
    | None => park (EtherIp6 p) st
    end
  else
    match head (omap gateway6 (ip6_host stack)) with
    | Some gw =>
        match nd_cache stack !! gw with
        | Some mac =>
            send_frame mac (EtherIp6 p)
              "ether__dst_unspec__ip6_lookup__extnet__gw_nd_cache_hit__send" st
        | None => park (EtherIp6 p) st
        end
    | None => st
    end.

(** Modelled from the spec: [_phtx_ether] of [protocols/ether/phtx.py] (not
    among the sources), for a packet handed down by an IP layer: the source
    is filled with the stack's address, the destination is resolved. *)
Definition phtx_ether (payload : EtherPayload) (st : TxState) : TxState :=
  let st := bump_tx "ether__src_unspec__fill" (bump_tx "ether__pre_assemble" st) in
  match payload with
  | EtherIp4 p => phtx_ether_ip4 p st
  | EtherIp6 p => phtx_ether_ip6 p st
  | EtherOther _ => st
  end.

Definition ip4_fragment_packet (src dst : Ip4Address) (proto id : N) (f : Fragment)
  : Ip4Packet :=
  {| ip4_src := src; ip4_dst := dst; ip4_proto := proto; ip4_id := id;
     ip4_flag_mf := fr_flag_mf f; ip4_offset := fr_offset f;
     ip4_data := fr_data f |}.

(** Modelled from the spec: [_phtx_ip4] of [protocols/ip4/phtx.py] (not
    among the sources).  The payload of an outgoing packet is fragmented
    when it exceeds the MTU less the header, into pieces of the largest
    multiple of eight bytes that fits; every piece goes through Ether
    assembly. *)
Definition phtx_ip4 (src dst : Ip4Address) (proto : N) (data : list Byte.byte)
    (st : TxState) : TxState :=
  let st := bump_tx "ip4__pre_assemble" st in
  let id := ip4_id_next st in
  let st := set_ip4_id_next ((id + 1) mod 65536)%N st in
  if bool_decide (IP4_HEADER_LEN + length data ≤ TAP_MTU stack) then
    phtx_ether
      (EtherIp4 {| ip4_src := src; ip4_dst := dst; ip4_proto := proto; ip4_id := id;
                   ip4_flag_mf := false; ip4_offset := 0; ip4_data := data |})
      (bump_tx "ip4__mtu_ok__send" st)
  else
    let chunks := split_chunks ((TAP_MTU stack - IP4_HEADER_LEN) / 8 * 8) data in
    foldl (λ st k,
             phtx_ether
               (EtherIp4 (ip4_fragment_packet src dst proto id (fragment_at chunks k)))
               (bump_tx "ip4__mtu_exceed__frag__send" st))
          (bump_tx "ip4__mtu_exceed__frag" st)
          (seq 0 (length chunks)).

(** A packet that fits the MTU goes to Ether assembly. *)
Definition phtx_ip6_fit (p : Ip6Packet) (st : TxState) : TxState :=
  phtx_ether (EtherIp6 p)
             (bump_tx "ip6__mtu_ok__send" (bump_tx "ip6__pre_assemble" st)).

(** Modelled from the spec: [_phtx_ip6] of [protocols/ip6/phtx.py] (not
    among the sources).  A payload that exceeds the MTU is cut into pieces
    that carry a Fragment extension header with the next identifier of the
    destination; each piece is then sent as a packet of its own. *)
Definition phtx_ip6 (src dst : Ip6Address) (next : N) (data : list Byte.byte)
    (st : TxState) : TxState :=
  if bool_decide (IP6_HEADER_LEN + length data ≤ TAP_MTU stack) then
    phtx_ip6_fit {| ip6_src := src; ip6_dst := dst;
                    ip6_payload := Ip6Upper next data |} st
  else
    let st := bump_tx "ip6__mtu_exceed__frag" (bump_tx "ip6__pre_assemble" st) in
    let st := bump_tx "ip6_ext_frag__pre_assemble" st in
    let id := default 0%N (ip6_id_next st !! dst) in
    let st := set_ip6_id_next (<[dst := ((id + 1) mod 4294967296)%N]> (ip6_id_next st)) st in
    let chunks :=
      split_chunks ((TAP_MTU stack - IP6_HEADER_LEN - IP6_EXT_FRAG_LEN) / 8 * 8) data in
    foldl (λ st k,
             let f := fragment_at chunks k in
             phtx_ip6_fit
               {| ip6_src := src; ip6_dst := dst;
                  ip6_payload := Ip6ExtFrag next (fr_offset f) (fr_flag_mf f) id (fr_data f) |}
               (bump_tx "ip6_ext_frag__send" st))
          st (seq 0 (length chunks)).

(** The IP layer of the family of the addresses. *)
Definition phtx_ip (src dst : IpAddress) (proto : N) (data : list Byte.byte)
    (st : TxState) : TxState :=
  match src, dst with
  | V4 s, V4 d => phtx_ip4 s d proto data st
  | V6 s, V6 d => phtx_ip6 s d proto data st
  | _, _ => st
  end.

(** Modelled from the spec: [_phtx_udp] and [_phtx_tcp] of
    [protocols/udp/phtx.py] and [protocols/tcp/phtx.py] (not among the
    sources): the layer is assembled once and handed to the IP layer. *)
Definition phtx_udp (src dst : IpAddress) (u : UdpView) (st : TxState) : TxState :=
  phtx_ip src dst IP_PROTO_UDP (udp_assemble codec src dst u)
          (bump_tx "udp__send" (bump_tx "udp__pre_assemble" st)).

Definition bump_tx_if (b : bool) (name : string) (st : TxState) : TxState :=
  if b then bump_tx name st else st.

Definition phtx_tcp (src dst : IpAddress) (t : TcpView) (st : TxState) : TxState :=
  let st := bump_tx "tcp__pre_assemble" st in
  let st := bump_tx_if (tcp_flag_syn t) "tcp__flag_syn" st in
  let st := bump_tx_if (tcp_flag_fin t) "tcp__flag_fin" st in
  let st := bump_tx_if (tcp_flag_rst t) "tcp__flag_rst" st in
  let st := bump_tx_if (tcp_flag_ack t) "tcp__flag_ack" st in
  phtx_ip src dst IP_PROTO_TCP (tcp_assemble codec src dst t) (bump_tx "tcp__send" st).

(** Destination Unreachable (Port) of the family of the offending datagram. *)
Definition phtx_icmp_unreachable_port (src dst : IpAddress) (offending : list Byte.byte)
    (st : TxState) : TxState :=
  let data := icmp_unreachable_port codec src dst offending in
  match src with
  | V4 _ =>
      phtx_ip src dst IP_PROTO_ICMP4 data
        (bump_tx "icmp4__unreachable_port__send" (bump_tx "icmp4__pre_assemble" st))
  | V6 _ =>
      phtx_ip src dst IP_PROTO_ICMP6 data
        (bump_tx "icmp6__unreachable_port__send" (bump_tx "icmp6__pre_assemble" st))
  end.

(** *** Receive path *)

(** Modelled from the spec: [_phrx_udp] of [protocols/udp/phrx.py] (not
    among the sources).  A datagram for a bound socket is delivered; a
    datagram for the echo port is bounced inside the stack unless the native
    echo is disabled; any other is answered with Destination Unreachable
    (Port).  [src] and [dst] are the addresses of the received packet. *)
Definition phrx_udp (src dst : IpAddress) (data : list Byte.byte) (st : State) : State :=
  let st := bump_rx "udp__pre_parse" st in
  match udp_parse codec src dst data with
  | None => st
  | Some u =>
      match list_find (socket_matches dst (udp_dport u)) (udp_sockets stack) with
      | Some (_, s) => deliver (ToUdpSocket s src u) (bump_rx "udp__socket_match" st)
      | None =>
          if negb (UDP_ECHO_NATIVE_DISABLE stack)
             && bool_decide (udp_dport u = UDP_ECHO_PORT)
          then
            respond (phtx_udp dst src (udp_echo_of u))
                    (bump_rx "udp__echo_native__respond_udp" st)
          else
            respond
              (phtx_icmp_unreachable_port dst src data)
              (bump_rx (match dst with
                        | V4 _ => "udp__no_socket_match__respond_icmp4_unreachable"
                        | V6 _ => "udp__no_socket_match__respond_icmp6_unreachable"
                        end) st)
      end
  end.

(** Modelled from the spec: [_phrx_tcp] of [protocols/tcp/phrx.py] (not
    among the sources).  A segment is routed to the session of its 4-tuple,
    else to a listening socket on its local (ip, port); when nothing matches
    the stack answers with RST and ACK. *)
Definition phrx_tcp (src dst : IpAddress) (data : list Byte.byte) (st : State) : State :=
  let st := bump_rx "tcp__pre_parse" st in
  match tcp_parse codec src dst data with
  | None => st
  | Some t =>
      let key := (dst, tcp_dport t, src, tcp_sport t) in
      if bool_decide (key ∈ tcp_sessions stack) then
        deliver (ToTcpSession key t) (bump_rx "tcp__socket_match_active" st)
      else
        match list_find (socket_matches dst (tcp_dport t)) (tcp_listening stack) with
        | Some (_, s) =>
            deliver (ToTcpListening s src t) (bump_rx "tcp__socket_match_listening" st)
        | None =>
            respond (phtx_tcp dst src (tcp_rst_ack_of t))
                    (bump_rx "tcp__no_socket_match__respond_rst" st)
        end
  end.

(** Dispatch of an IP payload by protocol (next header). *)
Definition phrx_upper (src dst : IpAddress) (proto : N) (data : list Byte.byte)
    (st : State) : State :=
  if bool_decide (proto = IP_PROTO_UDP) then phrx_udp src dst data st
  else if bool_decide (proto = IP_PROTO_TCP) then phrx_tcp src dst data st
  else st.

(** Modelled from the spec: [_phrx_ip4] of [protocols/ip4/phrx.py] (not
    among the sources).  The destination must be one of our unicast or
    multicast addresses or a broadcast address.  A packet with MF=1 or a
    fragment offset is a fragment: it joins its flow, and the datagram that
    it completes is processed in its place. *)
Definition phrx_ip4 (p : Ip4Packet) (st : State) : State :=
  let st := bump_rx "ip4__pre_parse" st in
  let accepted :=
    if bool_decide (ip4_dst p ∈ address <$> ip4_host stack)
    then Some "ip4__dst_unicast"
    else if bool_decide (ip4_dst p ∈ ip4_multicast stack)
    then Some "ip4__dst_multicast"
    else if bool_decide (ip4_dst p = ip4_limited_broadcast)
            || bool_decide (ip4_dst p ∈ ip4_network_broadcast <$> ip4_host stack)
    then Some "ip4__dst_broadcast"
    else None in
  match accepted with
  | None => bump_rx "ip4__dst_unknown__drop" st
  | Some counter =>
      let st := bump_rx counter st in
      if ip4_flag_mf p || negb (bool_decide (ip4_offset p = 0)) then
        let st := bump_rx "ip4__frag" st in
        let '(flows, done) :=
          defragment (ip4_src p, ip4_dst p, ip4_proto p, ip4_id p)
                     {| fr_offset := ip4_offset p; fr_flag_mf := ip4_flag_mf p;
                        fr_data := ip4_data p |}
                     (ip4_frag_flows st) in
        let st := set_ip4_frag_flows flows st in
        match done with
        | None => st
        | Some data =>
            phrx_upper (V4 (ip4_src p)) (V4 (ip4_dst p)) (ip4_proto p) data
                       (bump_rx "ip4__defrag" st)
        end
      else
        phrx_upper (V4 (ip4_src p)) (V4 (ip4_dst p)) (ip4_proto p) (ip4_data p) st
  end.

(** Modelled from the spec: [_phrx_ip6] of [protocols/ip6/phrx.py] with the
    Fragment header handling (not among the sources).  The destination must
    be one of our unicast or multicast addresses.  A packet with a Fragment
    extension header joins its flow; the packet that it completes is put
    through the IPv6 parser again.  [reentry] bounds the nesting of such
    re-entries: a reassembled packet carries no Fragment header, so one
    re-entry is all a frame can cause. *)
Fixpoint phrx_ip6 (reentry : nat) (p : Ip6Packet) (st : State) : State :=
  let st := bump_rx "ip6__pre_parse" st in
  let accepted :=
    if bool_decide (ip6_dst p ∈ address6 <$> ip6_host stack)
    then Some "ip6__dst_unicast"
    else if bool_decide (ip6_dst p ∈ ip6_multicast stack)
    then Some "ip6__dst_multicast"
    else None in
  match accepted with
  | None => bump_rx "ip6__dst_unknown__drop" st
  | Some counter =>
      let st := bump_rx counter st in
      match ip6_payload p with
      | Ip6Upper next data =>
          phrx_upper (V6 (ip6_src p)) (V6 (ip6_dst p)) next data st
      | Ip6ExtFrag next offset flag_mf id data =>
          let st := bump_rx "ip6_ext_frag__pre_parse" st in
          let '(flows, done) :=
            defragment (ip6_src p, ip6_dst p, next, id)
                       {| fr_offset := offset; fr_flag_mf := flag_mf; fr_data := data |}
                       (ip6_frag_flows st) in
          let st := set_ip6_frag_flows flows st in
          match done, reentry with
          | Some data, S reentry' =>
              phrx_ip6 reentry'
                       {| ip6_src := ip6_src p; ip6_dst := ip6_dst p;
                          ip6_payload := Ip6Upper next data |}
                       (bump_rx "ip6_ext_frag__defrag" st)
          | _, _ => st
          end
      end
  end.

(** Modelled from the spec: [_phrx_ether] of [protocols/ether/phrx.py] (not
    among the sources).  The destination is our unicast address, one of our
    multicast memberships or the broadcast address; the payload is
    dispatched by its EtherType. *)
Definition phrx_ether (f : EtherFrame) (st : State) : State :=
  let st := bump_rx "ether__pre_parse" st in
  let accepted :=
    if bool_decide (ether_dst f = mac_address stack) then Some "ether__dst_unicast"
    else if bool_decide (ether_dst f ∈ mac_multicast stack) then Some "ether__dst_multicast"
    else if is_broadcast (ether_dst f) then Some "ether__dst_broadcast"
    else None in
  match accepted with
  | None => bump_rx "ether__dst_unknown__drop" st
  | Some counter =>
      let st := bump_rx counter st in
      match ether_payload f with
      | EtherIp4 p => phrx_ip4 p st
      | EtherIp6 p => phrx_ip6 1 p st
      | EtherOther _ => st
      end
  end.

(** The frames of a test, received one after the other. *)
Definition receive (frames : list EtherFrame) (st : State) : State :=
  foldl (λ st f, phrx_ether f st) st frames.

(** *** The frames of the fragment scenarios *)

(** Piece [k] of an IPv4 datagram of [peer] for [host], cut into [chunks],
    in a frame for the stack; and the datagram in one frame. *)
Definition ip4_fragment_frame (peer_mac : MacAddress) (peer host : Ip4Address)
    (proto id : N) (chunks : list (list Byte.byte)) (k : nat) : EtherFrame :=
  {| ether_dst := mac_address stack; ether_src := peer_mac;
     ether_payload :=
       EtherIp4 (ip4_fragment_packet peer host proto id (fragment_at chunks k)) |}.

Definition ip4_intact_frame (peer_mac : MacAddress) (peer host : Ip4Address)
    (proto id : N) (data : list Byte.byte) : EtherFrame :=
  {| ether_dst := mac_address stack; ether_src := peer_mac;
     ether_payload :=
       EtherIp4 {| ip4_src := peer; ip4_dst := host; ip4_proto := proto;
                   ip4_id := id; ip4_flag_mf := false; ip4_offset := 0;
                   ip4_data := data |} |}.

Definition ip6_fragment_frame (peer_mac : MacAddress) (peer host : Ip6Address)
    (next id : N) (chunks : list (list Byte.byte)) (k : nat) : EtherFrame :=
  let f := fragment_at chunks k in
  {| ether_dst := mac_address stack; ether_src := peer_mac;
     ether_payload :=
       EtherIp6 {| ip6_src := peer; ip6_dst := host;
                   ip6_payload :=
                     Ip6ExtFrag next (fr_offset f) (fr_flag_mf f) id (fr_data f) |} |}.

Definition ip6_intact_frame (peer_mac : MacAddress) (peer host : Ip6Address)
    (next : N) (data : list Byte.byte) : EtherFrame :=
  {| ether_dst := mac_address stack; ether_src := peer_mac;
     ether_payload :=
       EtherIp6 {| ip6_src := peer; ip6_dst := host;
                   ip6_payload := Ip6Upper next data |} |}.

End Handlers.

(** The receive path along the arrivals [order] of the [n] pieces of one
    datagram, with the reassembler replaced by its outcome: every arrival
    bumps the counters [per_frame], and the arrival that completes the set
    bumps [per_datagram] and hands the datagram to [upper].  The lists give
    the counters from the last one bumped to the first. *)
Fixpoint arrivals (per_frame per_datagram : list string) (upper : State → State)
    (n : nat) (seen order : list nat) (st : State) : State :=
  match order with
  | [] => st
  | k :: rest =>
      let st := foldr bump_rx st per_frame in
      if covers n (k :: seen)
      then arrivals per_frame per_datagram upper n [] rest
                    (upper (foldr bump_rx st per_datagram))
      else arrivals per_frame per_datagram upper n (k :: seen) rest st
  end.

(** The counters of the fragment scenarios: those every fragment frame
    bumps on its way to the reassembler, and those its completed datagram
    bumps on its way to the upper layer. *)
Definition ip4_per_frame : list string :=
  ["ip4__frag"; "ip4__dst_unicast"; "ip4__pre_parse";
   "ether__dst_unicast"; "ether__pre_parse"].

Definition ip4_per_datagram : list string := ["ip4__defrag"].






(** How often [name] occurs in [names]. *)
Definition occurrences (name : string) (names : list string) : nat :=
  length (filter (λ c, c = name) names).

End Flows.

(** ** Worked examples

    The addresses are those of the test module: the stack is
    02:00:00:77:77:77 with 192.168.9.7/24 and
    2603:9000:e307:9f09:0:ff:fe77:7777/64, its peer on the local network is
    52:54:00:df:85:37 with 192.168.9.102 and 2603:9000:e307:9f09::1fa1. *)

Module Examples.

Definition STACK_MAC_ADDRESS : MacAddress := mkMac 0x020000777777.
Definition STACK_IP4_HOST : Ip4Host := mkIp4Host (mkIp4 0xC0A80907) 24 None.
Definition STACK_IP6_HOST : Ip6Host :=
  mkIp6Host (mkIp6 0x26039000e3079f09000000fffe777777) 64 None.
Definition LOCNET_MAC_ADDRESS : MacAddress := mkMac 0x525400DF8537.
Definition LOCNET_IP4_ADDRESS : Ip4Address := mkIp4 0xC0A80966.
Definition LOCNET_IP6_ADDRESS : Ip6Address := mkIp6 0x26039000e3079f090000000000001fa1.
Definition MAC_BROADCAST : MacAddress := mkMac 0xFFFFFFFFFFFF.

(** *** ARP *)

Definition arp_handler : Arp.PacketHandler :=
  {| Arp.mac_unicast := STACK_MAC_ADDRESS;
     Arp.ip4_unicast := [address STACK_IP4_HOST];
     Arp.ip4_host_candidate := [];
     Arp.arp_probe_unicast_conflict := ∅ |}.

(** The handler while it probes for 192.168.9.7. *)
Definition arp_handler_probing : Arp.PacketHandler :=
  {| Arp.mac_unicast := STACK_MAC_ADDRESS;
     Arp.ip4_unicast := [];
     Arp.ip4_host_candidate := [STACK_IP4_HOST];
     Arp.arp_probe_unicast_conflict := ∅ |}.

Definition arp_config : Arp.Config :=
  {| Arp.arp_cache_update_from_direct_request := true;
     Arp.arp_cache_update_from_gratuitious_reply := true |}.

(** A parser for packets that carry their view, or their parse failure,
    already. *)
Definition arp_attached (p : Arp.PacketRx) : Arp.PacketRx := p.

Definition arp_packet (ether_dst : MacAddress) (a : Arp.ArpView) : Arp.PacketRx :=
  {| Arp.frame := []; Arp.tracker := 1;
     Arp.ether := {| Arp.dst := ether_dst; Arp.src := Arp.sha a |};
     Arp.arp := Some a; Arp.parse_failed := "" |}.

(** Who has 192.168.9.7? Tell 192.168.9.102. *)
Definition arp_request : Arp.ArpView :=
  {| Arp.oper := Arp.ARP_OP_REQUEST;
     Arp.sha := LOCNET_MAC_ADDRESS; Arp.spa := LOCNET_IP4_ADDRESS;
     Arp.tha := mkMac 0; Arp.tpa := address STACK_IP4_HOST |}.

(** A request of a host that uses the stack's own address. *)
Definition arp_request_conflict : Arp.ArpView :=
  {| Arp.oper := Arp.ARP_OP_REQUEST;
     Arp.sha := LOCNET_MAC_ADDRESS; Arp.spa := address STACK_IP4_HOST;
     Arp.tha := mkMac 0; Arp.tpa := address STACK_IP4_HOST |}.

(** The answer of a host that owns the address the stack probes for. *)
Definition arp_reply_probe : Arp.ArpView :=
  {| Arp.oper := Arp.ARP_OP_REPLY;
     Arp.sha := LOCNET_MAC_ADDRESS; Arp.spa := address STACK_IP4_HOST;
     Arp.tha := STACK_MAC_ADDRESS; Arp.tpa := ip4_unspecified |}.

(** A gratuitous reply of the peer. *)
Definition arp_reply_gratuitous : Arp.ArpView :=
  {| Arp.oper := Arp.ARP_OP_REPLY;
     Arp.sha := LOCNET_MAC_ADDRESS; Arp.spa := LOCNET_IP4_ADDRESS;
     Arp.tha := MAC_BROADCAST; Arp.tpa := LOCNET_IP4_ADDRESS |}.

Definition arp_packet_failed : Arp.PacketRx :=
  {| Arp.frame := []; Arp.tracker := 2;
     Arp.ether := {| Arp.dst := MAC_BROADCAST; Arp.src := LOCNET_MAC_ADDRESS |};
     Arp.arp := None; Arp.parse_failed := "ARP integrity - wrong packet length" |}.

(** *** The packet flows *)

Import Flows.

Definition byte_of (n : N) : Byte.byte := default Byte.x00 (Byte.of_N (n mod 256)).

Definition be16 (n : N) : list Byte.byte := [byte_of (n / 256); byte_of n].

Definition be32 (n : N) : list Byte.byte := be16 (n / 65536) ++ be16 n.

Definition un16 (hi lo : Byte.byte) : N := (Byte.to_N hi * 256 + Byte.to_N lo)%N.

Definition un32 (b3 b2 b1 b0 : Byte.byte) : N := (un16 b3 b2 * 65536 + un16 b1 b0)%N.

(** A codec without checksums: the UDP header is the two ports, the length
    and a zero checksum; the TCP header is the twenty bytes without
    options. *)
Definition plain_udp_parse (_ _ : IpAddress) (bs : list Byte.byte) : option UdpView :=
  match bs with
  | s1 :: s0 :: d1 :: d0 :: _ :: _ :: _ :: _ :: data =>
      Some {| udp_sport := un16 s1 s0; udp_dport := un16 d1 d0; udp_data := data |}
  | _ => None
  end.

Definition plain_udp_assemble (_ _ : IpAddress) (u : UdpView) : list Byte.byte :=
  be16 (udp_sport u) ++ be16 (udp_dport u)
  ++ be16 (8 + N.of_nat (length (udp_data u))) ++ be16 0 ++ udp_data u.

Definition plain_tcp_parse (_ _ : IpAddress) (bs : list Byte.byte) : option TcpView :=
  match bs with
  | s1 :: s0 :: d1 :: d0 :: q3 :: q2 :: q1 :: q0 :: a3 :: a2 :: a1 :: a0
    :: _ :: fl :: _ :: _ :: _ :: _ :: _ :: _ :: data =>
      Some {| tcp_sport := un16 s1 s0; tcp_dport := un16 d1 d0;
              tcp_seq := un32 q3 q2 q1 q0; tcp_ack := un32 a3 a2 a1 a0;
              tcp_flag_syn := N.testbit (Byte.to_N fl) 1;
              tcp_flag_ack := N.testbit (Byte.to_N fl) 4;
              tcp_flag_fin := N.testbit (Byte.to_N fl) 0;
              tcp_flag_rst := N.testbit (Byte.to_N fl) 2;
              tcp_data := data |}
  | _ => None
  end.

Definition plain_tcp_assemble (_ _ : IpAddress) (t : TcpView) : list Byte.byte :=
  be16 (tcp_sport t) ++ be16 (tcp_dport t) ++ be32 (tcp_seq t) ++ be32 (tcp_ack t)
  ++ [byte_of 0x50;
      byte_of (bool_to_N (tcp_flag_fin t) + 2 * bool_to_N (tcp_flag_syn t)
               + 4 * bool_to_N (tcp_flag_rst t) + 16 * bool_to_N (tcp_flag_ack t))]
  ++ be16 65535 ++ be16 0 ++ be16 0 ++ tcp_data t.

Definition plain_codec : Codec :=
  {| udp_parse := plain_udp_parse; udp_assemble := plain_udp_assemble;
     tcp_parse := plain_tcp_parse; tcp_assemble := plain_tcp_assemble;
     icmp_unreachable_port := λ _ _ offending,
       [byte_of 3; byte_of 3] ++ be16 0 ++ be32 0 ++ offending |}.

(** The stack of the test module: no socket is bound, and the caches
    resolve the peer. *)
Definition test_stack : Stack :=
  {| mac_address := STACK_MAC_ADDRESS; mac_multicast := [];
     ip4_host := [STACK_IP4_HOST]; ip4_multicast := [];
     ip6_host := [STACK_IP6_HOST]; ip6_multicast := [];
     TAP_MTU := 1500; UDP_ECHO_NATIVE_DISABLE := false;
     arp_cache := {[ LOCNET_IP4_ADDRESS := LOCNET_MAC_ADDRESS ]};
     nd_cache := {[ LOCNET_IP6_ADDRESS := LOCNET_MAC_ADDRESS ]};
     udp_sockets := []; tcp_sessions := []; tcp_listening := [] |}.

(** A datagram of [n] bytes of payload for the echo port. *)
Definition echo_request (n : nat) : UdpView :=
  {| udp_sport := 50000; udp_dport := UDP_ECHO_PORT;
     udp_data := replicate n (byte_of 0x58) |}.

Definition echo_request_bytes (n : nat) : list Byte.byte :=
  plain_udp_assemble (V4 LOCNET_IP4_ADDRESS) (V4 (address STACK_IP4_HOST))
                     (echo_request n).

(** A datagram of 35 bytes in five pieces of at most eight bytes. *)
Definition five_pieces : list (list Byte.byte) := split_chunks 8 (echo_request_bytes 27).

(** A SYN for port 80. *)
Definition syn_segment : TcpView :=
  {| tcp_sport := 50000; tcp_dport := 80; tcp_seq := 1000; tcp_ack := 0;
     tcp_flag_syn := true; tcp_flag_ack := false;
     tcp_flag_fin := false; tcp_flag_rst := false; tcp_data := [] |}.

Definition syn_segment_bytes : list Byte.byte :=
  plain_tcp_assemble (V4 LOCNET_IP4_ADDRESS) (V4 (address STACK_IP4_HOST)) syn_segment.

End Examples.

(** * The services call by call, and the test harness *)

(** ** examples/tcp_daytime_service.py: the calls of [service]

    [Daytime.sending_loop] above keeps the control flow of the loop only.
    The model below keeps what [service] does to the outside, call by call:
    the lines it echoes, the calls of [send] and [close] on the connected
    socket and the calls of [time.sleep]. *)

Module DaytimeService.
Import Daytime.

Inductive Event :=
| EchoFirstMessage                     (* "Sending first message to ..." *)
| Send (message : string) (ok : bool)  (* [connected_socket.send(message)];
                                          [ok] is false when it raised [OSError] *)
| EchoSendError                        (* "send() error - ..." *)
| EchoSent (len : nat)                 (* "Sent {len(message)} bytes of data to ..." *)
| Sleep (delay : Z)                    (* [time.sleep(self._message_delay)] *)
| Close                                (* [connected_socket.close()] *)
| EchoClosed.                          (* "Closed connection to ..." *)

#[global] Instance Event_eq_dec : EqDecision Event.
Proof. solve_decision. Defined.

(** How [service] ends: it returns, or the [OSError] of a [send] outside
    the [try] block leaves it. *)
Inductive Outcome := Returned | RaisedOSError.

Definition newline : string := String (Ascii.ascii_of_nat 10) "".

(** [b"***CLIENT OPEN / SERVICE OPEN***\n"] *)
Definition BANNER : string := "***CLIENT OPEN / SERVICE OPEN***" +:+ newline.

Section Service.

(** [self._message_count] and [self._message_delay]. *)
Variable message_count0 : Z.
Variable message_delay : Z.

(** The outside: the stop flag at the loop test of round [i], whether the
    first [send] and the [send] of round [i] return, and the text of
    [datetime.now()] at round [i]. *)
Variable run_thread : nat → bool.
Variable banner_ok : bool.
Variable send_ok : nat → bool.
Variable now : nat → string.

(** [bytes(str(datetime.now()) + "\n", "utf-8")] *)
Definition message (i : nat) : string := now i +:+ newline.

(** One round of the loop that runs to its end. *)
Definition round (i : nat) : list Event :=
  [Send (message i) true; EchoSent (String.length (message i)); Sleep message_delay].

(** The [while] loop, from round [i] on. *)
Fixpoint rounds (fuel i : nat) (message_count : Z) : option (list Event) :=
  match fuel with
  | O => None
  | S fuel' =>
      if negb (run_thread i) then Some []
      else if (message_count =? 0)%Z then Some []
      else if negb (send_ok i) then Some [Send (message i) false; EchoSendError]
      else t ← rounds fuel' (S i) (next_count message_count);
           Some (round i ++ t)
  end.

(** [service]: the first message is sent outside the [try] block, so its
    [OSError] is not caught; the loop follows; [close] and the last line
    come after the loop. *)
Definition service (fuel : nat) : option (Outcome * list Event) :=
  if negb banner_ok then Some (RaisedOSError, [EchoFirstMessage; Send BANNER false])
  else t ← rounds fuel 0 message_count0;
       Some (Returned, EchoFirstMessage :: Send BANNER true :: t ++ [Close; EchoClosed]).

End Service.




End DaytimeService.

(** ** examples/udp_discard_service.py *)

Module Discard.

Inductive Event :=
| Recvfrom                                     (* [listening_socket.recvfrom()] *)
| Echo (len : nat) (ip : string) (port : N).   (* "Received {len} bytes from {ip}, port {port}." *)

Section Service.

(** The stop flag at the loop test of round [i], and the datagram and the
    sender's address that [recvfrom] returns in round [i]. *)
Variable run_thread : nat → bool.
Variable datagram : nat → list Byte.byte * (string * N).

Definition round (i : nat) : list Event :=
  let '(message, remote_address) := datagram i in
  [Recvfrom; Echo (length message) remote_address.1 remote_address.2].

(** [service]: the loop from round [i] on; [None] when [fuel] rounds did
    not suffice. *)
Fixpoint service (fuel i : nat) : option (list Event) :=
  match fuel with
  | O => None
  | S fuel' =>
      if negb (run_thread i) then Some []
      else t ← service fuel' (S i); Some (round i ++ t)
  end.

End Service.

End Discard.

(** ** tests/packet_flows_rx_tx.py: the capture of transmitted frames

    [setUp] binds [self.packet_tx] to one buffer, a [memoryview] of a
    [bytearray] of 2048 bytes, and [self.packets_tx] to an empty list.  The
    stand-in for [TxRing.enqueue] lets the packet assemble itself into
    [self.packet_tx] and, the result being falsy, appends [self.packet_tx]
    to [self.packets_tx]: the list holds references to the buffer, not
    copies of it.  The objects live in a store, and the attributes hold
    references. *)

Module Harness.

Abbreviation Buffer := (list Byte.byte).
Abbreviation Ref := nat.

#[global] Instance byte_eq_dec : EqDecision Byte.byte := Byte.byte_eq_dec.

Record TestCase := mkTestCase {
  heap : gmap Ref Buffer;
  packet_tx : Ref;
  packets_tx : list Ref
}.

(** [memoryview(bytearray(2048))] *)
Definition new_buffer : Buffer := replicate 2048 Byte.x00.

(** The state [setUp] leaves: one buffer, allocated once. *)
Definition setUp : TestCase :=
  {| heap := {[ 0 := new_buffer ]}; packet_tx := 0; packets_tx := [] |}.

Section Enqueue.

(** The packets handed to [enqueue] are not among the sources: [assemble]
    is what a packet writes into the buffer it is given, and
    [assemble_result] the truth value of what the call returns. *)
Variable Packet : Type.
Variable assemble : Packet → Buffer → Buffer.
Variable assemble_result : Packet → bool.

(** [lambda _: _.assemble(self.packet_tx) or self.packets_tx.append(self.packet_tx)] *)
Definition enqueue (t : TestCase) (p : Packet) : TestCase :=
  let heap' := alter (assemble p) (packet_tx t) (heap t) in
  if assemble_result p
  then {| heap := heap'; packet_tx := packet_tx t; packets_tx := packets_tx t |}
  else {| heap := heap'; packet_tx := packet_tx t;
          packets_tx := packets_tx t ++ [packet_tx t] |}.

(** The test case after the stack has enqueued [ps], in this order. *)
Definition run (ps : list Packet) : TestCase := foldl enqueue setUp ps.

End Enqueue.

(** [self.packets_tx[index][: n]]; [None] stands for [IndexError]. *)
Definition captured (t : TestCase) (index n : nat) : option Buffer :=
  r ← packets_tx t !! index; b ← heap t !! r; Some (take n b).

(** [self.packet_tx[: n]] *)
Definition last_frame (t : TestCase) (n : nat) : option Buffer :=
  b ← heap t !! packet_tx t; Some (take n b).

(** The closing loop of the two transmit-fragmentation tests:
    [for index in range(5): assertEqual(self.packets_tx[index][: len(frags[index])], frags[index])]. *)
Definition frags_match (t : TestCase) (frags : list Buffer) : bool :=
  forallb (λ index,
             match frags !! index with
             | Some frag => bool_decide (captured t index (length frag) = Some frag)
             | None => false
             end)
          (seq 0 5).

End Harness.

(** ** More worked examples *)

Module MoreExamples.
Import Flows Examples.

(** A datagram for a port on which nothing listens. *)
Definition closed_port_request : UdpView :=
  {| udp_sport := 50000; udp_dport := 9999;
     udp_data := replicate 16 (byte_of 0x58) |}.

Definition closed_port_request_bytes : list Byte.byte :=
  plain_udp_assemble (V4 LOCNET_IP4_ADDRESS) (V4 (address STACK_IP4_HOST))
                     closed_port_request.

(** A packet that writes its bytes at the start of the buffer. *)
Definition overwrite (p b : list Byte.byte) : list Byte.byte :=
  p ++ drop (length p) b.


End MoreExamples.

(** * Proofs *)

(** ** The fragment reassembler *)

Section ReassemblyFacts.
Import Reassembly.

Lemma write_bytes_lookup bs : ∀ pos (buf : gmap nat Byte.byte) p,
  write_bytes pos bs buf !! p
  = if decide (pos ≤ p < pos + length bs) then bs !! (p - pos) else buf !! p.
Proof.
  induction bs as [|b bs IH]; intros pos buf p; simpl.
  - case_decide; [lia | done].
  - rewrite IH. repeat case_decide; try lia.
    + replace (p - pos) with (S (p - S pos)) by lia. done.
    + assert (p = pos) as -> by lia. rewrite lookup_insert_eq.
      by replace (pos - pos) with 0 by lia.
    + rewrite lookup_insert_ne; [done | lia].
Qed.

Lemma chunk_start_S (chunks : list (list Byte.byte)) k c :
  chunks !! k = Some c →
  chunk_start chunks (S k) = chunk_start chunks k + length c.
Proof.
  intros Hk. unfold chunk_start.
  rewrite (take_S_r _ _ _ Hk), concat_app, length_app. simpl.
  rewrite app_nil_r. done.
Qed.

Lemma chunk_start_mono (chunks : list (list Byte.byte)) i j c :
  chunks !! i = Some c → i < j →
  chunk_start chunks i + length c ≤ chunk_start chunks j.
Proof.
  intros Hi Hij. induction Hij as [|j Hij IH].
  - by rewrite (chunk_start_S _ _ _ Hi).
  - etrans; [exact IH|]. unfold chunk_start.
    destruct (chunks !! j) as [cj|] eqn:Hj.
    + rewrite (take_S_r _ _ _ Hj), concat_app, length_app. lia.
    + apply lookup_ge_None in Hj. rewrite !take_ge by lia. done.
Qed.

Lemma chunk_start_all (chunks : list (list Byte.byte)) :
  chunk_start chunks (length chunks) = length (concat chunks).
Proof. unfold chunk_start. by rewrite firstn_all. Qed.

Lemma chunk_lookup (chunks : list (list Byte.byte)) k c j :
  chunks !! k = Some c → j < length c →
  concat chunks !! (chunk_start chunks k + j) = c !! j.
Proof.
  intros Hk Hj. unfold chunk_start.
  assert (concat chunks = concat (take k chunks) ++ concat (drop k chunks)) as ->
    by (by rewrite <- concat_app, take_drop).
  rewrite lookup_app_r by lia.
  replace (_ + j - _) with j by lia.
  rewrite (drop_S _ _ _ Hk). simpl. by rewrite lookup_app_l.
Qed.

Lemma chunk_of_pos (chunks : list (list Byte.byte)) p :
  p < length (concat chunks) →
  ∃ k c, chunks !! k = Some c
         ∧ chunk_start chunks k ≤ p < chunk_start chunks k + length c.
Proof.
  induction chunks as [|c0 chunks IH] using rev_ind; simpl; [lia|].
  rewrite concat_app, length_app. simpl. rewrite app_nil_r. intros Hp.
  destruct (decide (p < length (concat chunks))) as [Hlt|Hge].
  - destruct (IH Hlt) as (k & c & Hk & Hr).
    assert (k < length chunks) by (by eapply lookup_lt_Some).
    exists k, c. split; [by rewrite lookup_app_l|].
    unfold chunk_start in *. rewrite take_app_le by lia. done.
  - exists (length chunks), c0. split.
    + by rewrite lookup_app_r, Nat.sub_diag.
    + unfold chunk_start. rewrite take_app_length. lia.
Qed.

Lemma omap_seq_lookup {A} (f : nat → option A) (l : list A) : ∀ s,
  (∀ i, i < length l → f (s + i) = l !! i) →
  omap f (seq s (length l)) = l.
Proof.
  induction l as [|x l IH]; intros s Hf; simpl; [done|].
  pose proof (Hf 0 ltac:(simpl; lia)) as H0. rewrite Nat.add_0_r in H0.
  rewrite H0. simpl. f_equal. apply IH. intros i Hi.
  replace (S s + i) with (s + S i) by lia. apply Hf. simpl. lia.
Qed.

Section Cut.
Variable chunks : list (list Byte.byte).
Hypothesis Hcut : well_cut chunks = true.

Lemma well_cut_at k c :
  chunks !! k = Some c →
  length c ≠ 0 ∧ (S k < length chunks → length c mod 8 = 0).
Proof using Hcut.
  intros Hk. unfold well_cut in Hcut. rewrite forallb_forall in Hcut.
  specialize (Hcut (k, c)). simpl in Hcut.
  assert (In (k, c) (imap pair chunks)) as Hin.
  { apply list_elem_of_In, list_elem_of_lookup. exists k.
    by rewrite list_lookup_imap, Hk. }
  apply Hcut in Hin. apply andb_prop in Hin as [Hne Hm].
  apply negb_true_iff, bool_decide_eq_false in Hne.
  split; [done|]. intros Hlt.
  apply orb_prop in Hm as [Hm|Hm]; apply bool_decide_eq_true in Hm; [lia|done].
Qed.

Lemma chunk_start_mod8 k :
  k < length chunks → chunk_start chunks k mod 8 = 0.
Proof using Hcut.
  induction k as [|k IH]; intros Hk; [done|].
  assert (k < length chunks) as Hk' by lia.
  destruct (lookup_lt_is_Some_2 chunks k Hk') as [c Hc].
  rewrite (chunk_start_S _ _ _ Hc).
  destruct (well_cut_at k c Hc) as [_ Hm].
  specialize (Hm Hk). specialize (IH Hk').
  rewrite <- Nat.Div0.add_mod_idemp_l, IH. simpl. done.
Qed.

Lemma fragment_at_pos k :
  k < length chunks → fr_offset (fragment_at chunks k) * 8 = chunk_start chunks k.
Proof using Hcut.
  intros Hk. unfold fragment_at. cbn [fr_offset].
  pose proof (chunk_start_mod8 k Hk) as Hm.
  pose proof (Nat.div_mod_eq (chunk_start chunks k) 8) as Hd.
  rewrite Hm in Hd. rewrite Nat.mul_comm. rewrite Hd at 2. lia.
Qed.

Lemma holds_new : holds chunks [] ff_new.
Proof.
  split; [|split]; [done | | by intros ?%elem_of_nil].
  symmetry. apply bool_decide_eq_false_2. by intros ?%elem_of_nil.
Qed.

Lemma holds_add seen fl k :
  holds chunks seen fl → k < length chunks →
  holds chunks (k :: seen) (ff_add (fragment_at chunks k) fl).
Proof using Hcut.
  intros (Hd & Hl & Ht) Hk.
  destruct (lookup_lt_is_Some_2 chunks k Hk) as [c Hc].
  unfold ff_add. rewrite (fragment_at_pos k Hk).
  split; [|split]; simpl.
  - intros p. rewrite write_bytes_lookup, Hd. unfold in_chunk. rewrite Hc. simpl.
    destruct (decide _) as [Hr|Hr].
    + rewrite bool_decide_eq_true_2 by done. simpl.
      rewrite <- (chunk_lookup chunks k c (p - chunk_start chunks k) Hc) by lia.
      f_equal. lia.
    + by rewrite bool_decide_eq_false_2.
  - rewrite Hl. apply eq_true_iff_eq.
    rewrite orb_true_iff, negb_true_iff, bool_decide_eq_false, !bool_decide_eq_true.
    rewrite elem_of_cons. split.
    + intros [Hin|Hn]; [by right | left]. clear -Hk Hn. lia.
    + intros [Hp|Hin]; [right; clear -Hk Hp; lia | by left].
  - rewrite elem_of_cons. intros Hin.
    rewrite Hc. simpl. destruct (bool_decide_reflect (S k < length chunks)) as [Hmf|Hmf].
    + destruct Hin as [?|?]; [lia | by apply Ht].
    + rewrite <- (chunk_start_S _ _ _ Hc).
      replace (S k) with (length chunks) by lia. apply chunk_start_all.
Qed.

Lemma covered_spec seen p :
  covered chunks seen p = true ↔ ∃ k, k ∈ seen ∧ in_chunk chunks k p = true.
Proof.
  unfold covered. rewrite existsb_exists.
  split; intros (k & ? & ?); exists k; by rewrite ?list_elem_of_In in *.
Qed.

Lemma covers_spec n l : covers n l = true ↔ ∀ i, i < n → i ∈ l.
Proof.
  unfold covers. rewrite forallb_forall. split.
  - intros Hall i Hi. specialize (Hall i). rewrite bool_decide_eq_true in Hall.
    apply Hall, in_seq. lia.
  - intros Hall i Hi. apply in_seq in Hi. apply bool_decide_eq_true, Hall. lia.
Qed.

Lemma in_chunk_unique i j p :
  i < length chunks → j < length chunks →
  in_chunk chunks i p = true → in_chunk chunks j p = true → i = j.
Proof.
  intros Hi Hj. unfold in_chunk. rewrite !bool_decide_eq_true.
  destruct (lookup_lt_is_Some_2 chunks i Hi) as [ci Hci].
  destruct (lookup_lt_is_Some_2 chunks j Hj) as [cj Hcj].
  rewrite Hci, Hcj. simpl. intros Hri Hrj.
  destruct (decide (i = j)) as [|Hne]; [done|].
  destruct (decide (i < j)).
  - assert (i < j) as Hlt by lia.
    pose proof (chunk_start_mono chunks i j ci Hci Hlt). lia.
  - assert (j < i) as Hlt by lia.
    pose proof (chunk_start_mono chunks j i cj Hcj Hlt). lia.
Qed.

Lemma holds_complete seen fl :
  holds chunks seen fl → chunks ≠ [] → (∀ i, i ∈ seen → i < length chunks) →
  ff_complete fl = covers (length chunks) seen.
Proof using Hcut.
  intros (Hd & Hl & Ht) Hne Hseen.
  assert (0 < length chunks) as Hn by (destruct chunks; simpl; [done|lia]).
  apply eq_true_iff_eq. unfold ff_complete.
  rewrite andb_true_iff, forallb_forall, covers_spec, Hl, bool_decide_eq_true.
  split.
  - intros [Hlast Hall] i Hi.
    rewrite (Ht Hlast) in Hall.
    destruct (lookup_lt_is_Some_2 chunks i Hi) as [c Hc].
    destruct (well_cut_at i c Hc) as [Hlen _].
    pose proof (chunk_start_mono chunks i (length chunks) c Hc Hi) as Hm.
    rewrite chunk_start_all in Hm.
    specialize (Hall (chunk_start chunks i)).
    rewrite bool_decide_eq_true, Hd in Hall.
    destruct (covered chunks seen (chunk_start chunks i)) eqn:Hcov.
    + apply covered_spec in Hcov as (j & Hj & Hin).
      assert (i = j) as ->; [|done].
      apply (in_chunk_unique i j (chunk_start chunks i)); auto.
      unfold in_chunk. rewrite Hc. simpl. apply bool_decide_eq_true. lia.
    + exfalso. eapply is_Some_None, Hall, in_seq. lia.
  - intros Hall. assert (pred (length chunks) ∈ seen) as Hlast by (apply Hall; lia).
    split; [done|]. rewrite (Ht Hlast). intros p Hp. apply in_seq in Hp.
    apply bool_decide_eq_true. rewrite Hd.
    assert (p < length (concat chunks)) as Hp' by lia.
    destruct (chunk_of_pos chunks p Hp') as (k & c & Hk & Hr).
    assert (covered chunks seen p = true) as ->.
    { apply covered_spec. exists k. split.
      - apply Hall. by eapply lookup_lt_Some.
      - unfold in_chunk. rewrite Hk. by apply bool_decide_eq_true. }
    apply lookup_lt_is_Some_2. lia.
Qed.

Lemma holds_payload seen fl :
  holds chunks seen fl → covers (length chunks) seen = true → chunks ≠ [] →
  ff_payload fl = concat chunks.
Proof.
  intros (Hd & Hl & Ht) Hcov Hne.
  assert (0 < length chunks) as Hn
    by (apply Nat.neq_0_lt_0; intros Hz; apply Hne, nil_length_inv, Hz).
  rewrite covers_spec in Hcov.
  assert (pred (length chunks) ∈ seen) as Hlast by (apply Hcov; lia).
  unfold ff_payload. rewrite (Ht Hlast).
  apply omap_seq_lookup. intros p Hp. simpl. rewrite Hd.
  destruct (chunk_of_pos chunks p Hp) as (k & c & Hk & Hr).
  assert (covered chunks seen p = true) as ->; [|done].
  apply covered_spec. exists k. split.
  - apply Hcov. by eapply lookup_lt_Some.
  - unfold in_chunk. rewrite Hk. by apply bool_decide_eq_true.
Qed.

End Cut.

End ReassemblyFacts.

(** ** Cutting a payload into pieces *)

Section SplitChunks.
Import Reassembly Flows.

Lemma split_chunks_length size (data : list Byte.byte) :
  length (split_chunks size data) = (length data + size - 1) / size.
Proof. unfold split_chunks. by rewrite length_fmap, length_seq. Qed.

Lemma split_chunks_lookup size (data : list Byte.byte) k :
  k < length (split_chunks size data) →
  split_chunks size data !! k = Some (take size (drop (k * size) data)).
Proof.
  rewrite split_chunks_length. intros Hk. unfold split_chunks.
  rewrite list_lookup_fmap, lookup_seq_lt by done. done.
Qed.

Lemma split_chunks_bound size (data : list Byte.byte) k :
  0 < size → k < length (split_chunks size data) → k * size < length data.
Proof.
  rewrite split_chunks_length. intros Hs Hk.
  pose proof (Nat.Div0.mul_div_le (length data + size - 1) size) as Hq. nia.
Qed.

Lemma split_chunks_bound_S size (data : list Byte.byte) k :
  0 < size → S k < length (split_chunks size data) →
  length (take size (drop (k * size) data)) = size.
Proof.
  intros Hs Hk. pose proof (split_chunks_bound size data (S k) Hs Hk).
  rewrite length_take, length_drop. lia.
Qed.

Lemma concat_pieces size n : ∀ data : list Byte.byte,
  length data ≤ n * size →
  concat ((λ k, take size (drop (k * size) data)) <$> seq 0 n) = data.
Proof.
  induction n as [|n IH]; intros data Hlen; simpl.
  - by destruct data; [|simpl in Hlen; lia].
  - rewrite <- fmap_S_seq, <- list_fmap_compose.
    transitivity (take size data ++ drop size data); [|apply take_drop].
    f_equal.
    rewrite <- (IH (drop size data)) by (rewrite length_drop; lia).
    f_equal. apply list_fmap_ext. intros _ k _. simpl.
    by rewrite drop_drop.
Qed.

(** The pieces of a payload, put together again, are the payload. *)
Lemma split_chunks_concat size (data : list Byte.byte) :
  0 < size → concat (split_chunks size data) = data.
Proof.
  intros Hs. apply concat_pieces.
  pose proof (Nat.div_mod_eq (length data + size - 1) size) as Hd.
  pose proof (Nat.mod_upper_bound (length data + size - 1) size) as Hm.
  rewrite Nat.mul_comm. lia.
Qed.

(** Pieces of a size that is a multiple of eight are well cut. *)
Lemma split_chunks_well_cut size (data : list Byte.byte) :
  0 < size → size mod 8 = 0 → well_cut (split_chunks size data) = true.
Proof.
  intros Hs H8. unfold well_cut. apply forallb_forall. intros [k c] Hin.
  apply list_elem_of_In, list_elem_of_lookup in Hin as [i Hi].
  rewrite list_lookup_imap in Hi.
  destruct (split_chunks size data !! i) as [c'|] eqn:Hc; [|done].
  simpl in Hi. injection Hi as <- <-.
  assert (i < length (split_chunks size data)) as Hlt by (by eapply lookup_lt_Some).
  rewrite (split_chunks_lookup _ _ _ Hlt) in Hc. injection Hc as <-.
  pose proof (split_chunks_bound size data i Hs Hlt) as Hb.
  apply andb_true_intro. split.
  - apply negb_true_iff, bool_decide_eq_false.
    rewrite length_take, length_drop. lia.
  - apply orb_true_iff.
    destruct (decide (S i = length (split_chunks size data))) as [He|He].
    + left. by apply bool_decide_eq_true.
    + right. apply bool_decide_eq_true.
      rewrite split_chunks_bound_S; [done|done|lia].
Qed.

(** Piece [k] starts at [k * size]. *)
Lemma split_chunks_start size (data : list Byte.byte) k :
  0 < size → k < length (split_chunks size data) →
  chunk_start (split_chunks size data) k = k * size.
Proof.
  intros Hs. induction k as [|k IH]; intros Hk; [done|].
  assert (k < length (split_chunks size data)) as Hk' by lia.
  rewrite (chunk_start_S _ _ _ (split_chunks_lookup _ _ _ Hk')).
  rewrite (IH Hk'), split_chunks_bound_S by done. lia.
Qed.

End SplitChunks.

(** ** arp/phrx.py *)

Section ArpSpec.
Import Arp.

Variable ArpParser : PacketRx → PacketRx.
Variable config : Config.

Lemma truthy_empty : truthy "" = false.
Proof. reflexivity. Qed.

Lemma truthy_nonempty s : s ≠ "" → truthy s = true.
Proof. intros Hs. unfold truthy. by apply negb_true_iff, String.eqb_neq. Qed.

Lemma py_in_true `{EqDecision A} (x : A) xs : x ∈ xs → py_in x xs = true.
Proof. intros. by apply bool_decide_eq_true. Qed.

Lemma py_in_false `{EqDecision A} (x : A) xs : x ∉ xs → py_in x xs = false.
Proof. intros. by apply bool_decide_eq_false. Qed.

(** The handler on a frame that parsed as an ARP request. *)
Lemma phrx_arp_request self packet_rx a :
  parse_failed (ArpParser packet_rx) = "" →
  arp (ArpParser packet_rx) = Some a →
  oper a = ARP_OP_REQUEST →
  _phrx_arp ArpParser config self packet_rx
  = (let '(out, calls) := on_request config self (ArpParser packet_rx) a in
     (out, Log "arp" (MsgPacket (tracker (ArpParser packet_rx)) a) :: calls)).
Proof.
  intros Hpf Ha Hop. unfold _phrx_arp. rewrite Hpf, truthy_empty, Ha.
  by rewrite bool_decide_eq_true_2.
Qed.

(** The handler on a frame that parsed as an ARP reply. *)
Lemma phrx_arp_reply self packet_rx a :
  parse_failed (ArpParser packet_rx) = "" →
  arp (ArpParser packet_rx) = Some a →
  oper a = ARP_OP_REPLY →
  _phrx_arp ArpParser config self packet_rx
  = (let '(out, calls) := on_reply config self (ArpParser packet_rx) a in
     (out, Log "arp" (MsgPacket (tracker (ArpParser packet_rx)) a) :: calls)).
Proof.
  intros Hpf Ha Hop. unfold _phrx_arp. rewrite Hpf, truthy_empty, Ha.
  rewrite bool_decide_eq_false_2 by (rewrite Hop; done).
  by rewrite bool_decide_eq_true_2.
Qed.

(** C1: an ARP request for one of the stack's addresses, from a sender that
    does not use one of them, is answered with exactly one ARP reply: its
    sender is the stack's MAC and the requested address, its target the
    requester's MAC and address, and it echoes the tracker of the received
    packet.  The sender's mapping is handed to the ARP cache if and only if
    [arp_cache_update_from_direct_request] is set. *)
Theorem phrx_arp_request_for_stack self packet_rx a :
  parse_failed (ArpParser packet_rx) = "" →
  arp (ArpParser packet_rx) = Some a →
  oper a = ARP_OP_REQUEST →
  tpa a ∈ ip4_unicast self →
  spa a ∉ ip4_unicast self →
  ∃ calls,
    _phrx_arp ArpParser config self packet_rx = (Returned self, calls)
    ∧ replies calls
      = [ {| ether_src := mac_unicast self;
             ether_dst := sha a;
             arp_oper := ARP_OP_REPLY;
             arp_sha := mac_unicast self;
             arp_spa := tpa a;
             arp_tha := sha a;
             arp_tpa := spa a;
             echo_tracker := tracker (ArpParser packet_rx) |} ]
    ∧ cache_adds calls
      = (if arp_cache_update_from_direct_request config
         then [(spa a, sha a)] else [])
    ∧ (ArpCacheAddEntry (spa a) (sha a) ∈ calls
       ↔ arp_cache_update_from_direct_request config = true).
Proof.
  intros Hpf Ha Hop Htpa Hspa.
  rewrite (phrx_arp_request _ _ _ Hpf Ha Hop). unfold on_request.
  rewrite (py_in_false _ _ Hspa), (py_in_true _ _ Htpa).
  eexists. split; [reflexivity|].
  destruct (arp_cache_update_from_direct_request config); simpl;
    (split; [done|]); (split; [done|]); split; try done.
  - intros _. set_solver.
  - intros Hin.
    repeat (apply elem_of_cons in Hin as [Hin|Hin]; [discriminate|]).
    by apply elem_of_nil in Hin.
Qed.

(** C2: an ARP request whose sender address is one of the stack's addresses
    is an address conflict: the handler writes the conflict to the log, which
    is how it shows it to an observer, and returns; it sends no reply and
    hands nothing to the ARP cache, and its own attributes stay as they
    were.  This holds whatever the target address is, one of the stack's
    addresses included: the conflict rule comes first. *)
Theorem phrx_arp_request_conflict self packet_rx a :
  parse_failed (ArpParser packet_rx) = "" →
  arp (ArpParser packet_rx) = Some a →
  oper a = ARP_OP_REQUEST →
  spa a ∈ ip4_unicast self →
  ∃ calls,
    _phrx_arp ArpParser config self packet_rx = (Returned self, calls)
    ∧ log_lines calls
      = [ MsgPacket (tracker (ArpParser packet_rx)) a;
          MsgIpConflict (tracker (ArpParser packet_rx)) (spa a) (sha a) ]
    ∧ replies calls = []
    ∧ cache_adds calls = [].
Proof.
  intros Hpf Ha Hop Hspa.
  rewrite (phrx_arp_request _ _ _ Hpf Ha Hop). unfold on_request.
  rewrite (py_in_true _ _ Hspa). eexists. by split.
Qed.

(** C3: an ARP reply sent to the stack's MAC.  When it answers a probe of
    the stack (its sender address is a candidate address, its target
    hardware address is the stack's MAC and its target address is 0.0.0.0)
    the sender address joins [arp_probe_unicast_conflict] and nothing is
    handed to the ARP cache; in every other case the sender's mapping is
    handed to the ARP cache, whatever the configuration. *)
Theorem phrx_arp_reply_direct self packet_rx a :
  parse_failed (ArpParser packet_rx) = "" →
  arp (ArpParser packet_rx) = Some a →
  oper a = ARP_OP_REPLY →
  dst (ether (ArpParser packet_rx)) = mac_unicast self →
  ∃ self' calls,
    _phrx_arp ArpParser config self packet_rx = (Returned self', calls)
    ∧ replies calls = []
    ∧ (spa a ∈ address <$> ip4_host_candidate self
       ∧ tha a = mac_unicast self ∧ tpa a = ip4_unspecified →
       arp_probe_unicast_conflict self'
       = {[ spa a ]} ∪ arp_probe_unicast_conflict self
       ∧ spa a ∈ arp_probe_unicast_conflict self'
       ∧ cache_adds calls = [])
    ∧ (¬ (spa a ∈ address <$> ip4_host_candidate self
          ∧ tha a = mac_unicast self ∧ tpa a = ip4_unspecified) →
       self' = self ∧ cache_adds calls = [(spa a, sha a)]).
Proof.
  intros Hpf Ha Hop Hdst.
  rewrite (phrx_arp_reply _ _ _ Hpf Ha Hop). unfold on_reply.
  rewrite (bool_decide_eq_true_2 _ Hdst). simpl. unfold py_in.
  destruct (bool_decide_reflect (spa a ∈ address <$> ip4_host_candidate self)) as [Hc|Hc];
    simpl;
    [destruct (bool_decide_reflect (tha a = mac_unicast self)) as [Hh|Hh]; simpl;
     [destruct (bool_decide_reflect (tpa a = ip4_unspecified)) as [Hz|Hz]; simpl|]|];
    do 2 eexists; (split; [reflexivity|]); simpl;
    (split; [done|]); split; try tauto.
  intros _. split; [done|]. split; [|done].
  by apply elem_of_union_l, elem_of_singleton.
Qed.

(** C4: when the parser records a parse failure the handler logs it and
    returns: no reply is sent, nothing is handed to the ARP cache, and the
    handler's attributes, [arp_probe_unicast_conflict] among them, stay as
    they were. *)
Theorem phrx_arp_parse_failed self packet_rx :
  parse_failed (ArpParser packet_rx) ≠ "" →
  _phrx_arp ArpParser config self packet_rx
  = (Returned self,
     [Log "arp" (MsgParseFailed (tracker (ArpParser packet_rx))
                                (parse_failed (ArpParser packet_rx)))])
  ∧ replies (_phrx_arp ArpParser config self packet_rx).2 = []
  ∧ cache_adds (_phrx_arp ArpParser config self packet_rx).2 = [].
Proof.
  intros Hpf. unfold _phrx_arp. by rewrite (truthy_nonempty _ Hpf).
Qed.

(** C5: an ARP reply sent to the broadcast MAC, the stack's own MAC being a
    unicast address.  The sender's mapping is handed to the ARP cache if and
    only if the reply is gratuitous (its sender and target addresses are
    equal) and [arp_cache_update_from_gratuitious_reply] is set; otherwise
    nothing is handed to the cache.  No reply is sent and the handler's
    attributes stay as they were. *)
Theorem phrx_arp_reply_broadcast self packet_rx a :
  parse_failed (ArpParser packet_rx) = "" →
  arp (ArpParser packet_rx) = Some a →
  oper a = ARP_OP_REPLY →
  is_broadcast (dst (ether (ArpParser packet_rx))) = true →
  is_broadcast (mac_unicast self) = false →
  ∃ calls,
    _phrx_arp ArpParser config self packet_rx = (Returned self, calls)
    ∧ replies calls = []
    ∧ (spa a = tpa a ∧ arp_cache_update_from_gratuitious_reply config = true →
       cache_adds calls = [(spa a, sha a)])
    ∧ (¬ (spa a = tpa a ∧ arp_cache_update_from_gratuitious_reply config = true) →
       cache_adds calls = [])
    ∧ (ArpCacheAddEntry (spa a) (sha a) ∈ calls
       ↔ spa a = tpa a ∧ arp_cache_update_from_gratuitious_reply config = true).
Proof.
  intros Hpf Ha Hop Hb Hu.
  assert (dst (ether (ArpParser packet_rx)) ≠ mac_unicast self) as Hne
    by (intros Heq; rewrite Heq in Hb; congruence).
  rewrite (phrx_arp_reply _ _ _ Hpf Ha Hop). unfold on_reply.
  rewrite (bool_decide_eq_false_2 _ Hne), Hb. simpl.
  destruct (bool_decide_reflect (spa a = tpa a)) as [He|He]; simpl;
    [destruct (arp_cache_update_from_gratuitious_reply config) eqn:Hg; simpl|];
    eexists; (split; [reflexivity|]); simpl; (split; [done|]);
    (split; [try done; intros []; congruence|]);
    (split; [try done; intros Hn; exfalso; apply Hn; done|]).
  - split; [done|]. intros _. set_solver.
  - split; [|intros []; congruence]. intros Hin.
    repeat (apply elem_of_cons in Hin as [Hin|Hin]; [discriminate|]).
    by apply elem_of_nil in Hin.
  - split; [|intros []; congruence]. intros Hin.
    repeat (apply elem_of_cons in Hin as [Hin|Hin]; [discriminate|]).
    by apply elem_of_nil in Hin.
Qed.

End ArpSpec.

(** ** examples/tcp_daytime_service.py *)

Section DaytimeSpec.
Import Daytime.

Lemma next_count_pred message_count :
  next_count message_count = (message_count - 1)%Z.
Proof. unfold next_count. lia. Qed.

Lemma count_after_default k :
  count_after k default_message_count = (-1 - Z.of_nat k)%Z.
Proof.
  unfold count_after, default_message_count.
  induction k as [|k IH]; [done|].
  rewrite Nat.iter_succ, IH, next_count_pred. lia.
Qed.

(** From a negative count the loop is left only by the stop flag or by a
    failing [send], at the first round where one of the two happens. *)
Lemma sending_loop_negative run_thread send_ok fuel : ∀ i message_count e j,
  (message_count < 0)%Z →
  sending_loop run_thread send_ok fuel i message_count = Some (e, j) →
  i ≤ j
  ∧ (∀ r, i ≤ r < j → run_thread r = true ∧ send_ok r = true)
  ∧ (e = ThreadStopped ∧ run_thread j = false
     ∨ e = SendError ∧ run_thread j = true ∧ send_ok j = false).
Proof.
  induction fuel as [|fuel IH]; intros i mc e j Hneg; simpl; [done|].
  destruct (run_thread i) eqn:Hr; simpl.
  2:{ intros [= <- <-]. split; [lia|]. split; [intros; lia|]. by left. }
  destruct (Z.eqb_spec mc 0) as [->|_]; [lia|].
  destruct (send_ok i) eqn:Hs; simpl.
  2:{ intros [= <- <-]. split; [lia|]. split; [intros; lia|]. by right. }
  intros Hloop. apply IH in Hloop as (Hle & Hbefore & Hexit).
  2:{ rewrite next_count_pred. lia. }
  split; [lia|]. split; [|done]. intros r Hr'.
  destruct (decide (r = i)) as [->|]; [done | apply Hbefore; lia].
Qed.

(** The loop reaches the first round at which the stop flag is clear or
    [send] fails, given fuel for it. *)
Lemma sending_loop_reaches run_thread send_ok n : ∀ i message_count fuel,
  (message_count < 0)%Z →
  (∀ r, i ≤ r < i + n → run_thread r = true ∧ send_ok r = true) →
  run_thread (i + n) = false ∨ send_ok (i + n) = false →
  n < fuel →
  ∃ e, sending_loop run_thread send_ok fuel i message_count = Some (e, i + n)
       ∧ e ≠ CountExhausted.
Proof.
  induction n as [|n IH]; intros i mc fuel Hneg Hbefore Hstop Hfuel;
    (destruct fuel as [|fuel]; [lia|]); simpl.
  - rewrite Nat.add_0_r in *.
    destruct (run_thread i) eqn:Hr; simpl; [|by eexists].
    destruct (Z.eqb_spec mc 0) as [->|_]; [lia|].
    destruct Hstop as [?|Hs]; [done|]. rewrite Hs. simpl. by eexists.
  - destruct (Hbefore i) as [Hr Hs]; [lia|]. rewrite Hr, Hs. simpl.
    destruct (Z.eqb_spec mc 0) as [->|_]; [lia|].
    replace (i + S n) with (S i + n) in * by lia.
    apply IH; [rewrite next_count_pred; lia | | done | lia].
    intros r Hr'. apply Hbefore. lia.
Qed.

Lemma sending_loop_forever run_thread send_ok fuel : ∀ i message_count,
  (message_count < 0)%Z →
  (∀ r, run_thread r = true ∧ send_ok r = true) →
  sending_loop run_thread send_ok fuel i message_count = None.
Proof.
  induction fuel as [|fuel IH]; intros i mc Hneg Hall; simpl; [done|].
  destruct (Hall i) as [-> ->]. simpl.
  destruct (Z.eqb_spec mc 0) as [->|_]; [lia|].
  apply IH; [rewrite next_count_pred; lia | done].
Qed.

(** C10: [min(message_count, message_count - 1)] is [message_count - 1] for
    every integer, so the update is a plain decrement.  From the default -1
    the count is [-1 - k] after [k] rounds and never zero.  The sending loop
    therefore never ends because the count ran out: when it ends, the stop
    flag was clear or [send] failed at that round; it does end at the first
    such round; and while neither happens it runs on. *)
Theorem daytime_count_never_exhausted :
  (∀ n, next_count n = (n - 1)%Z)
  ∧ (∀ k, count_after k default_message_count = (-1 - Z.of_nat k)%Z
          ∧ count_after k default_message_count ≠ 0%Z)
  ∧ (∀ run_thread send_ok fuel e j,
       sending_loop run_thread send_ok fuel 0 default_message_count = Some (e, j) →
       e ≠ CountExhausted
       ∧ (e = ThreadStopped ∧ run_thread j = false
          ∨ e = SendError ∧ run_thread j = true ∧ send_ok j = false))
  ∧ (∀ run_thread send_ok n,
       (∀ r, r < n → run_thread r = true ∧ send_ok r = true) →
       run_thread n = false ∨ send_ok n = false →
       ∃ e, sending_loop run_thread send_ok (S n) 0 default_message_count = Some (e, n)
            ∧ e ≠ CountExhausted)
  ∧ (∀ run_thread send_ok fuel,
       (∀ r, run_thread r = true ∧ send_ok r = true) →
       sending_loop run_thread send_ok fuel 0 default_message_count = None).
Proof.
  split; [exact next_count_pred|].
  split; [intros k; rewrite count_after_default; split; [done|lia]|].
  split; [|split].
  - intros run_thread send_ok fuel e j Hloop.
    apply sending_loop_negative in Hloop as (_ & _ & Hexit); [|done].
    split; [|done]. by destruct Hexit as [[-> _]|[-> _]].
  - intros run_thread send_ok n Hbefore Hstop.
    apply (sending_loop_reaches run_thread send_ok n 0); [done| |done|lia].
    intros r Hr. apply Hbefore. lia.
  - intros run_thread send_ok fuel Hall.
    by apply sending_loop_forever.
Qed.

End DaytimeSpec.

(** ** The receive and transmit paths *)

Section Counters.
Import Reassembly Flows.

Lemma stat_empty name : stat name ∅ = 0.
Proof. done. Qed.

Lemma stat_bump name c (s : PacketStats) :
  stat name (bump c s) = if String.eqb c name then S (stat name s) else stat name s.
Proof.
  unfold bump, stat at 1. destruct (String.eqb_spec c name) as [->|Hne].
  - by rewrite lookup_insert_eq.
  - by rewrite lookup_insert_ne.
Qed.

Lemma occurrences_cons name c names :
  occurrences name (c :: names)
  = (if String.eqb c name then 1 else 0) + occurrences name names.
Proof.
  unfold occurrences. rewrite filter_cons.
  destruct (String.eqb_spec c name) as [->|Hne].
  - by rewrite decide_True.
  - by rewrite decide_False.
Qed.

Lemma stat_bumps_rx name names st :
  stat name (packet_stats_rx (foldr bump_rx st names))
  = stat name (packet_stats_rx st) + occurrences name names.
Proof.
  induction names as [|c names IH]; simpl; [unfold occurrences; simpl; lia|].
  rewrite stat_bump, IH, occurrences_cons. destruct (String.eqb c name); lia.
Qed.

Lemma tx_bumps_rx names st : tx (foldr bump_rx st names) = tx st.
Proof. induction names as [|c names IH]; simpl; done. Qed.

Lemma covers_mono n l l' : l ⊆ l' → covers n l = true → covers n l' = true.
Proof. rewrite !covers_spec. intros Hsub Hall i Hi. apply Hsub, Hall, Hi. Qed.

Lemma covers_equiv n l l' : l ≡ₚ l' → covers n l = covers n l'.
Proof.
  intros Hp. apply eq_true_iff_eq. rewrite !covers_spec.
  split; intros Hall i Hi; [rewrite <- Hp | rewrite Hp]; by apply Hall.
Qed.

(** Arrivals that do not contain the whole set complete nothing. *)
Lemma completions_none n order : ∀ seen,
  covers n (order ++ seen) = false → Reassembly.completions n seen order = 0.
Proof.
  induction order as [|k rest IH]; intros seen Hc; simpl; [done|].
  destruct (covers n (k :: seen)) eqn:Hk.
  - exfalso. rewrite <- not_true_iff_false in Hc. apply Hc.
    eapply covers_mono; [|exact Hk].
    intros x. repeat (rewrite elem_of_app || rewrite elem_of_cons). tauto.
  - apply IH. rewrite <- Hc. apply covers_equiv.
    by rewrite <- Permutation_middle.
Qed.

(** Arrivals that complete the set with [k], and do not contain it again
    after [k], complete it once. *)
Lemma completions_once n pre k post :
  covers n pre = false → covers n (pre ++ [k]) = true → covers n post = false →
  Reassembly.completions n [] (pre ++ k :: post) = 1.
Proof.
  intros Hpre Hk Hpost.
  assert (∀ seen, covers n (pre ++ seen) = false →
                  covers n (k :: pre ++ seen) = true →
                  Reassembly.completions n seen (pre ++ k :: post) = 1) as Hgen.
  { clear Hpre Hk. induction pre as [|a pre IH]; intros seen Hc Hk; simpl.
    - simpl in Hk. rewrite Hk. f_equal. apply completions_none.
      by rewrite app_nil_r.
    - destruct (covers n (a :: seen)) eqn:Ha.
      + exfalso. rewrite <- not_true_iff_false in Hc. apply Hc.
        eapply covers_mono; [|exact Ha].
        intros x. repeat (rewrite elem_of_app || rewrite elem_of_cons). tauto.
      + apply IH.
        * rewrite <- Hc. apply covers_equiv. by rewrite <- Permutation_middle.
        * rewrite <- Hk. apply covers_equiv.
          simpl. by rewrite <- Permutation_middle. }
  apply Hgen; rewrite app_nil_r; [done|].
  rewrite <- Hk. apply covers_equiv. by rewrite <- Permutation_cons_append.
Qed.


End Counters.

Section ReassemblerRuns.
Import Reassembly.
Context `{Countable K}.
Variable chunks : list (list Byte.byte).
Hypothesis Hcut : well_cut chunks = true.
Hypothesis Hne : chunks ≠ [].

(** One arrival: the set completes exactly when, with this piece, every
    piece has arrived since the last completion; the datagram handed on is
    the original one, and its flow is removed. *)
Lemma defragment_step (key : K) (flows : gmap K FragmentFlow) seen k :
  k < length chunks →
  Forall (λ i, i < length chunks) seen →
  holds chunks seen (default ff_new (flows !! key)) →
  defragment key (fragment_at chunks k) flows
  = (if covers (length chunks) (k :: seen)
     then (delete key flows, Some (concat chunks))
     else (<[key := ff_add (fragment_at chunks k) (default ff_new (flows !! key))]> flows,
           None))
  ∧ holds chunks (k :: seen)
          (ff_add (fragment_at chunks k) (default ff_new (flows !! key))).
Proof using Hcut Hne.
  intros Hk Hseen Hh.
  pose proof (holds_add chunks Hcut seen _ k Hh Hk) as Hh'.
  split; [|done]. unfold defragment.
  rewrite (holds_complete chunks Hcut (k :: seen) _ Hh' Hne).
  2:{ intros i. rewrite elem_of_cons. intros [->|Hi]; [done|].
      by eapply Forall_forall in Hseen. }
  destruct (covers (length chunks) (k :: seen)) eqn:Hc; [|done].
  f_equal. f_equal. eapply holds_payload; eauto.
Qed.

Lemma holds_after_delete (key : K) (flows : gmap K FragmentFlow) :
  holds chunks [] (default ff_new (delete key flows !! key)).
Proof. rewrite lookup_delete_eq. apply holds_new. Qed.

Lemma holds_after_insert (key : K) (flows : gmap K FragmentFlow) seen fl :
  holds chunks seen fl →
  holds chunks seen (default ff_new (<[key := fl]> flows !! key)).
Proof. by rewrite lookup_insert_eq. Qed.


End ReassemblerRuns.

Section Pipeline.
Import Reassembly Flows.

Variable codec : Codec.
Variable stack : Stack.

(** The handlers above the IP layer leave the fragment flows alone. *)
Lemma phrx_upper_ip4_flows src dst proto data F st :
  phrx_upper codec stack src dst proto data (set_ip4_frag_flows F st)
  = set_ip4_frag_flows F (phrx_upper codec stack src dst proto data st).
Proof.
  unfold phrx_upper, phrx_udp, phrx_tcp.
  repeat (case_match; try reflexivity).
Qed.




Section Arrivals.
Variables (per_frame per_datagram : list string) (upper : State → State).
Variable n : nat.

Lemma arrivals_ip4_flows F order : ∀ seen st,
  (∀ F st, upper (set_ip4_frag_flows F st) = set_ip4_frag_flows F (upper st)) →
  arrivals per_frame per_datagram upper n seen order (set_ip4_frag_flows F st)
  = set_ip4_frag_flows F (arrivals per_frame per_datagram upper n seen order st).
Proof.
  intros seen st Hup. revert seen st.
  assert (∀ names st, foldr bump_rx (set_ip4_frag_flows F st) names
                      = set_ip4_frag_flows F (foldr bump_rx st names)) as Hb.
  { induction names as [|c names IH]; intros st; simpl; [done|]. by rewrite IH. }
  induction order as [|k rest IH]; intros seen st; simpl; [done|].
  rewrite !Hb. destruct (covers n (k :: seen)).
  - by rewrite Hup, IH.
  - by rewrite IH.
Qed.



(** The transmit path is entered once for every completion. *)
Lemma arrivals_tx g order : ∀ seen st,
  (∀ st, tx (upper st) = g (tx st)) →
  tx (arrivals per_frame per_datagram upper n seen order st)
  = Nat.iter (completions n seen order) g (tx st).
Proof.
  intros seen st Hup. revert seen st.
  induction order as [|k rest IH]; intros seen st; simpl; [done|].
  destruct (covers n (k :: seen)); rewrite IH.
  - by rewrite Hup, !tx_bumps_rx, <- Nat.iter_succ_r.
  - by rewrite tx_bumps_rx.
Qed.

End Arrivals.

Section Fragments.
Variable chunks : list (list Byte.byte).
Hypothesis Hcut : well_cut chunks = true.

(** With two pieces or more, every piece is recognised as a fragment: it
    has MF=1 or a fragment offset. *)
Lemma fragment_at_is_fragment k :
  2 ≤ length chunks →
  k < length chunks →
  fr_flag_mf (fragment_at chunks k)
  || negb (bool_decide (fr_offset (fragment_at chunks k) = 0)) = true.
Proof using Hcut.
  intros Hlen Hk. unfold fragment_at. cbn [fr_flag_mf fr_offset].
  destruct (bool_decide_reflect (S k < length chunks)) as [|Hlast]; [done|].
  rewrite orb_false_l. apply negb_true_iff, bool_decide_eq_false.
  assert (0 < length chunks) as H0 by lia.
  destruct (lookup_lt_is_Some_2 chunks 0 H0) as [c0 Hc0].
  destruct (well_cut_at chunks Hcut 0 c0 Hc0) as [Hne0 Hm0].
  assert (0 < k) as Hpos by lia.
  pose proof (chunk_start_mono chunks 0 k c0 Hc0 Hpos) as Hmono.
  assert (length c0 mod 8 = 0) as Hm by (apply Hm0; lia).
  pose proof (Nat.div_mod_eq (length c0) 8) as Hd. rewrite Hm in Hd.
  assert (8 ≤ chunk_start chunks k) as H8 by lia.
  intros Hz. apply Nat.div_small_iff in Hz; [lia|done].
Qed.

Section Ip4.
Variables (peer_mac : MacAddress) (peer host : Ip4Address) (proto id : N).
Hypothesis Hhost : host ∈ address <$> ip4_host stack.
Hypothesis Hlen : 2 ≤ length chunks.

Lemma two_nonempty : chunks ≠ [].
Proof using Hlen. intros Heq. rewrite Heq in Hlen. simpl in Hlen. lia. Qed.

(** One fragment frame through [phrx_ether]. *)
Lemma phrx_ether_ip4_fragment seen k st :
  k < length chunks →
  Forall (λ i, i < length chunks) seen →
  holds chunks seen (default ff_new (ip4_frag_flows st !! (peer, host, proto, id))) →
  ∃ F,
    phrx_ether codec stack
      (ip4_fragment_frame stack peer_mac peer host proto id chunks k) st
    = (if covers (length chunks) (k :: seen)
       then set_ip4_frag_flows F
              (phrx_upper codec stack (V4 peer) (V4 host) proto (concat chunks)
                 (bump_rx "ip4__defrag" (foldr bump_rx st ip4_per_frame)))
       else set_ip4_frag_flows F (foldr bump_rx st ip4_per_frame))
    ∧ holds chunks (if covers (length chunks) (k :: seen) then [] else k :: seen)
            (default ff_new (F !! (peer, host, proto, id))).
Proof using Hcut Hlen Hhost.
  intros Hk Hseen Hh.
  unfold phrx_ether, ip4_fragment_frame. cbn [ether_dst ether_payload].
  rewrite bool_decide_eq_true_2 by done.
  unfold phrx_ip4, ip4_fragment_packet.
  cbn [ip4_dst ip4_src ip4_proto ip4_id ip4_flag_mf ip4_offset ip4_data].
  rewrite (bool_decide_eq_true_2 _ Hhost).
  rewrite (fragment_at_is_fragment k Hlen Hk).
  cbn [ip4_frag_flows bump_rx].
  replace {| fr_offset := fr_offset (fragment_at chunks k);
             fr_flag_mf := fr_flag_mf (fragment_at chunks k);
             fr_data := fr_data (fragment_at chunks k) |}
    with (fragment_at chunks k) by (by destruct (fragment_at chunks k)).
  destruct (defragment_step chunks Hcut two_nonempty (peer, host, proto, id)
              (ip4_frag_flows st) seen k Hk Hseen Hh) as [-> Hh'].
  destruct (covers (length chunks) (k :: seen)).
  - eexists. split.
    + rewrite <- phrx_upper_ip4_flows. reflexivity.
    + apply holds_after_delete.
  - eexists. split; [reflexivity|]. by apply holds_after_insert.
Qed.

(** The frames of the fragments, received in the order [order], leave the
    stack as [arrivals] describes, up to the fragment flows. *)
Lemma receive_ip4_fragments order : ∀ seen st,
  Forall (λ i, i < length chunks) order →
  Forall (λ i, i < length chunks) seen →
  holds chunks seen (default ff_new (ip4_frag_flows st !! (peer, host, proto, id))) →
  ∃ F,
    receive codec stack
      (ip4_fragment_frame stack peer_mac peer host proto id chunks <$> order) st
    = set_ip4_frag_flows F
        (arrivals ip4_per_frame ip4_per_datagram
           (phrx_upper codec stack (V4 peer) (V4 host) proto (concat chunks))
           (length chunks) seen order st).
Proof using Hcut Hlen Hhost.
  induction order as [|k rest IH]; intros seen st Hord Hseen Hh.
  - exists (ip4_frag_flows st). by destruct st.
  - apply Forall_cons in Hord as [Hk Hrest].
    destruct (phrx_ether_ip4_fragment seen k st Hk Hseen Hh) as (F & Hstep & Hh').
    unfold receive in *. rewrite fmap_cons. cbn [foldl]. rewrite Hstep.
    cbn [arrivals].
    destruct (covers (length chunks) (k :: seen)).
    + destruct (IH [] (set_ip4_frag_flows F
                  (phrx_upper codec stack (V4 peer) (V4 host) proto (concat chunks)
                     (bump_rx "ip4__defrag" (foldr bump_rx st ip4_per_frame))))
                  Hrest (Forall_nil_2 _)) as [F' HF'].
      { exact Hh'. }
      exists F'. rewrite HF'.
      rewrite arrivals_ip4_flows by (intros; apply phrx_upper_ip4_flows).
      reflexivity.
    + destruct (IH (k :: seen) (set_ip4_frag_flows F (foldr bump_rx st ip4_per_frame))
                  Hrest) as [F' HF'].
      { by apply Forall_cons. }
      { exact Hh'. }
      exists F'. rewrite HF'.
      rewrite arrivals_ip4_flows by (intros; apply phrx_upper_ip4_flows).
      reflexivity.
Qed.

End Ip4.

Section Ip6.
Variables (peer_mac : MacAddress) (peer host : Ip6Address) (next id : N).
Hypothesis Hhost : host ∈ address6 <$> ip6_host stack.
Hypothesis Hne : chunks ≠ [].



End Ip6.

End Fragments.

(** *** Transmit path *)

Lemma stat_bumps_tx name names t :
  stat name (packet_stats_tx (foldr bump_tx t names))
  = stat name (packet_stats_tx t) + occurrences name names.
Proof.
  induction names as [|c names IH]; simpl; [unfold occurrences; simpl; lia|].
  rewrite stat_bump, IH, occurrences_cons. destruct (String.eqb c name); lia.
Qed.

Lemma ring_bumps_tx names t : tx_ring (foldr bump_tx t names) = tx_ring t.
Proof. induction names as [|c names IH]; simpl; done. Qed.

Lemma id_bumps_tx names t : ip4_id_next (foldr bump_tx t names) = ip4_id_next t.
Proof. induction names as [|c names IH]; simpl; done. Qed.







(** *** Packets for a peer of the local network whose MAC is in the cache *)

Section ToPeer4.
Variables (peer : Ip4Address) (peer_mac : MacAddress).
Hypothesis Hmc : ip4_is_multicast peer = false.
Hypothesis Hloc : existsb (λ h, ip4_in_network h peer) (ip4_host stack) = true.
Hypothesis Harp : arp_cache stack !! peer = Some peer_mac.

Lemma phtx_ether_ip4_hit p t :
  ip4_dst p = peer →
  phtx_ether stack (EtherIp4 p) t
  = enqueue {| ether_dst := peer_mac; ether_src := mac_address stack;
               ether_payload := EtherIp4 p |}
      (foldr bump_tx t
         ["ether__dst_unspec__ip4_lookup__locnet__arp_cache_hit__send";
          "ether__dst_unspec__ip4_lookup"; "ether__src_unspec__fill";
          "ether__pre_assemble"]).
Proof using Hmc Hloc Harp.
  intros Hp. unfold phtx_ether, phtx_ether_ip4. rewrite Hp, Hmc, Hloc, Harp.
  reflexivity.
Qed.



End ToPeer4.

Section ToPeer6.
Variables (peer : Ip6Address) (peer_mac : MacAddress).
Hypothesis Hmc : ip6_is_multicast peer = false.
Hypothesis Hloc : existsb (λ h, ip6_in_network h peer) (ip6_host stack) = true.
Hypothesis Hnd : nd_cache stack !! peer = Some peer_mac.


End ToPeer6.

(** *** The handlers above the IP layer in the scenarios *)

(** A datagram for the echo port that no socket takes is bounced. *)
Lemma phrx_upper_udp_echo src dst data u st :
  udp_parse codec src dst data = Some u →
  udp_dport u = UDP_ECHO_PORT →
  UDP_ECHO_NATIVE_DISABLE stack = false →
  list_find (socket_matches dst (udp_dport u)) (udp_sockets stack) = None →
  phrx_upper codec stack src dst IP_PROTO_UDP data st
  = respond (phtx_udp codec stack dst src (udp_echo_of u))
            (foldr bump_rx st ["udp__echo_native__respond_udp"; "udp__pre_parse"]).
Proof.
  intros Hp Hport Hecho Hsock. unfold phrx_upper, phrx_udp.
  rewrite bool_decide_eq_true_2 by done.
  rewrite Hp, Hsock, Hecho, Hport. reflexivity.
Qed.


(** A datagram that arrives in one frame. *)
Lemma phrx_ether_ip4_intact peer_mac peer host proto id data st :
  host ∈ address <$> ip4_host stack →
  phrx_ether codec stack (ip4_intact_frame stack peer_mac peer host proto id data) st
  = phrx_upper codec stack (V4 peer) (V4 host) proto data
      (foldr bump_rx st ["ip4__dst_unicast"; "ip4__pre_parse";
                         "ether__dst_unicast"; "ether__pre_parse"]).
Proof.
  intros Hhost. unfold phrx_ether, ip4_intact_frame. cbn [ether_dst ether_payload].
  rewrite bool_decide_eq_true_2 by done.
  unfold phrx_ip4. cbn [ip4_dst ip4_src ip4_proto ip4_flag_mf ip4_offset ip4_data].
  rewrite (bool_decide_eq_true_2 _ Hhost). reflexivity.
Qed.

Lemma phrx_ether_ip6_intact peer_mac peer host next data st :
  host ∈ address6 <$> ip6_host stack →
  phrx_ether codec stack (ip6_intact_frame stack peer_mac peer host next data) st
  = phrx_upper codec stack (V6 peer) (V6 host) next data
      (foldr bump_rx st ["ip6__dst_unicast"; "ip6__pre_parse";
                         "ether__dst_unicast"; "ether__pre_parse"]).
Proof.
  intros Hhost. unfold phrx_ether, ip6_intact_frame. cbn [ether_dst ether_payload].
  rewrite bool_decide_eq_true_2 by done.
  cbn [phrx_ip6 ip6_dst ip6_src ip6_payload].
  rewrite (bool_decide_eq_true_2 _ Hhost). reflexivity.
Qed.

End Pipeline.

(** ** The scenarios of tests/packet_flows_rx_tx.py *)

Section Scenarios.
Import Reassembly Flows.

Variable codec : Codec.
Variable stack : Stack.








End Scenarios.

(** ** The theorems at work on the examples *)

Section Worked.
Import Examples.

(** The request of the test module is answered, and its sender is learned. *)
Lemma phrx_arp_request_for_stack_example :
  ∃ calls,
    Arp._phrx_arp arp_attached arp_config arp_handler
      (arp_packet MAC_BROADCAST arp_request)
    = (Arp.Returned arp_handler, calls)
    ∧ Arp.replies calls
      = [ {| Arp.ether_src := STACK_MAC_ADDRESS;
             Arp.ether_dst := LOCNET_MAC_ADDRESS;
             Arp.arp_oper := Arp.ARP_OP_REPLY;
             Arp.arp_sha := STACK_MAC_ADDRESS;
             Arp.arp_spa := address STACK_IP4_HOST;
             Arp.arp_tha := LOCNET_MAC_ADDRESS;
             Arp.arp_tpa := LOCNET_IP4_ADDRESS;
             Arp.echo_tracker := 1 |} ]
    ∧ Arp.cache_adds calls = [(LOCNET_IP4_ADDRESS, LOCNET_MAC_ADDRESS)].
Proof.
  destruct (phrx_arp_request_for_stack arp_attached arp_config arp_handler
              (arp_packet MAC_BROADCAST arp_request) arp_request)
    as (calls & Hrun & Hreplies & Hadds & _);
    [reflexivity | reflexivity | reflexivity | | |].
  - apply list_elem_of_singleton. reflexivity.
  - intros Hin. apply list_elem_of_singleton in Hin. discriminate Hin.
  - exists calls. split; [exact Hrun|]. split; [exact Hreplies|exact Hadds].
Defined.

Lemma phrx_arp_request_conflict_example :
  ∃ calls,
    Arp._phrx_arp arp_attached arp_config arp_handler
      (arp_packet MAC_BROADCAST arp_request_conflict)
    = (Arp.Returned arp_handler, calls)
    ∧ Arp.replies calls = [] ∧ Arp.cache_adds calls = [].
Proof.
  destruct (phrx_arp_request_conflict arp_attached arp_config arp_handler
              (arp_packet MAC_BROADCAST arp_request_conflict) arp_request_conflict)
    as (calls & Hrun & _ & Hreplies & Hadds);
    [reflexivity | reflexivity | reflexivity | |].
  - apply list_elem_of_singleton. reflexivity.
  - exists calls. split; [exact Hrun|]. split; [exact Hreplies|exact Hadds].
Defined.

Lemma phrx_arp_reply_direct_example :
  ∃ self' calls,
    Arp._phrx_arp arp_attached arp_config arp_handler_probing
      (arp_packet STACK_MAC_ADDRESS arp_reply_probe)
    = (Arp.Returned self', calls)
    ∧ address STACK_IP4_HOST ∈ Arp.arp_probe_unicast_conflict self'
    ∧ Arp.cache_adds calls = [].
Proof.
  destruct (phrx_arp_reply_direct arp_attached arp_config arp_handler_probing
              (arp_packet STACK_MAC_ADDRESS arp_reply_probe) arp_reply_probe)
    as (self' & calls & Hrun & _ & Hprobe & _);
    [reflexivity | reflexivity | reflexivity | reflexivity |].
  destruct Hprobe as (_ & Hin & Hadds).
  - split; [|split; reflexivity]. apply list_elem_of_singleton. reflexivity.
  - exists self', calls. split; [exact Hrun|]. split; [exact Hin|exact Hadds].
Defined.

Lemma phrx_arp_parse_failed_example :
  Arp.replies (Arp._phrx_arp arp_attached arp_config arp_handler arp_packet_failed).2 = []
  ∧ Arp.cache_adds
      (Arp._phrx_arp arp_attached arp_config arp_handler arp_packet_failed).2 = [].
Proof.
  destruct (phrx_arp_parse_failed arp_attached arp_config arp_handler arp_packet_failed)
    as (_ & Hreplies & Hadds); [discriminate|].
  split; [exact Hreplies|exact Hadds].
Defined.

Lemma phrx_arp_reply_broadcast_example :
  ∃ calls,
    Arp._phrx_arp arp_attached arp_config arp_handler
      (arp_packet MAC_BROADCAST arp_reply_gratuitous)
    = (Arp.Returned arp_handler, calls)
    ∧ Arp.cache_adds calls = [(LOCNET_IP4_ADDRESS, LOCNET_MAC_ADDRESS)].
Proof.
  destruct (phrx_arp_reply_broadcast arp_attached arp_config arp_handler
              (arp_packet MAC_BROADCAST arp_reply_gratuitous) arp_reply_gratuitous)
    as (calls & Hrun & _ & Hadds & _);
    [reflexivity | reflexivity | reflexivity | reflexivity | reflexivity |].
  exists calls. split; [exact Hrun|]. apply Hadds. split; reflexivity.
Defined.

Import Reassembly Flows.





(** The counter bundles that the test module asserts, on the examples. *)
Example test_ip4_udp_echo_rx_frag_1202103341_stats :
  let st' :=
    receive plain_codec test_stack
      (ip4_fragment_frame test_stack LOCNET_MAC_ADDRESS LOCNET_IP4_ADDRESS
         (address STACK_IP4_HOST) IP_PROTO_UDP 1%N five_pieces
       <$> [1; 2; 0; 2; 1; 0; 3; 3; 4; 1]) fresh in
  packet_stats_rx st'
  = list_to_map
      [("ether__pre_parse", 10); ("ether__dst_unicast", 10);
       ("ip4__pre_parse", 10); ("ip4__dst_unicast", 10);
       ("ip4__frag", 10); ("ip4__defrag", 1);
       ("udp__pre_parse", 1); ("udp__echo_native__respond_udp", 1)]
  ∧ packet_stats_tx (tx st')
    = list_to_map
        [("udp__pre_assemble", 1); ("udp__send", 1);
         ("ip4__pre_assemble", 1); ("ip4__mtu_ok__send", 1);
         ("ether__pre_assemble", 1); ("ether__src_unspec__fill", 1);
         ("ether__dst_unspec__ip4_lookup", 1);
         ("ether__dst_unspec__ip4_lookup__locnet__arp_cache_hit__send", 1)]
  ∧ length (tx_ring (tx st')) = 1.
Proof. cbv zeta. apply (bool_decide_unpack _). vm_compute. exact I. Qed.

Example test_ip6_udp_echo_rx_frag_1202103341_stats :
  let st' :=
    receive plain_codec test_stack
      (ip6_fragment_frame test_stack LOCNET_MAC_ADDRESS LOCNET_IP6_ADDRESS
         (address6 STACK_IP6_HOST) IP_PROTO_UDP 1%N five_pieces
       <$> [1; 2; 0; 2; 1; 0; 3; 3; 4; 1]) fresh in
  packet_stats_rx st'
  = list_to_map
      [("ether__pre_parse", 10); ("ether__dst_unicast", 10);
       ("ip6__pre_parse", 11); ("ip6__dst_unicast", 11);
       ("ip6_ext_frag__pre_parse", 10); ("ip6_ext_frag__defrag", 1);
       ("udp__pre_parse", 1); ("udp__echo_native__respond_udp", 1)]
  ∧ packet_stats_tx (tx st')
    = list_to_map
        [("udp__pre_assemble", 1); ("udp__send", 1);
         ("ip6__pre_assemble", 1); ("ip6__mtu_ok__send", 1);
         ("ether__pre_assemble", 1); ("ether__src_unspec__fill", 1);
         ("ether__dst_unspec__ip6_lookup", 1);
         ("ether__dst_unspec__ip6_lookup__locnet__nd_cache_hit__send", 1)].
Proof. cbv zeta. apply (bool_decide_unpack _). vm_compute. exact I. Qed.

Example test_ip4_udp_echo_tx_frag_stats :
  let st' :=
    phrx_ether plain_codec test_stack
      (ip4_intact_frame test_stack LOCNET_MAC_ADDRESS LOCNET_IP4_ADDRESS
         (address STACK_IP4_HOST) IP_PROTO_UDP 1%N (echo_request_bytes (60 * 100)))
      fresh in
  packet_stats_rx st'
  = list_to_map
      [("ether__pre_parse", 1); ("ether__dst_unicast", 1);
       ("ip4__pre_parse", 1); ("ip4__dst_unicast", 1);
       ("udp__pre_parse", 1); ("udp__echo_native__respond_udp", 1)]
  ∧ packet_stats_tx (tx st')
    = list_to_map
        [("udp__pre_assemble", 1); ("udp__send", 1);
         ("ip4__pre_assemble", 1); ("ip4__mtu_exceed__frag", 1);
         ("ip4__mtu_exceed__frag__send", 5);
         ("ether__pre_assemble", 5); ("ether__src_unspec__fill", 5);
         ("ether__dst_unspec__ip4_lookup", 5);
         ("ether__dst_unspec__ip4_lookup__locnet__arp_cache_hit__send", 5)].
Proof. cbv zeta. apply (bool_decide_unpack _). vm_compute. exact I. Qed.

Example test_ip6_udp_echo_tx_frag_stats :
  let st' :=
    phrx_ether plain_codec test_stack
      (ip6_intact_frame test_stack LOCNET_MAC_ADDRESS LOCNET_IP6_ADDRESS
         (address6 STACK_IP6_HOST) IP_PROTO_UDP (echo_request_bytes (60 * 100)))
      fresh in
  packet_stats_tx (tx st')
  = list_to_map
      [("udp__pre_assemble", 1); ("udp__send", 1);
       ("ip6__pre_assemble", 6); ("ip6__mtu_exceed__frag", 1);
       ("ip6__mtu_ok__send", 5); ("ip6_ext_frag__pre_assemble", 1);
       ("ip6_ext_frag__send", 5);
       ("ether__pre_assemble", 5); ("ether__src_unspec__fill", 5);
       ("ether__dst_unspec__ip6_lookup", 5);
       ("ether__dst_unspec__ip6_lookup__locnet__nd_cache_hit__send", 5)].
Proof. cbv zeta. apply (bool_decide_unpack _). vm_compute. exact I. Qed.

Example test_ip4_tcp_syn_to_closed_port_stats :
  let st' :=
    phrx_ether plain_codec test_stack
      (ip4_intact_frame test_stack LOCNET_MAC_ADDRESS LOCNET_IP4_ADDRESS
         (address STACK_IP4_HOST) IP_PROTO_TCP 1%N syn_segment_bytes) fresh in
  packet_stats_rx st'
  = list_to_map
      [("ether__pre_parse", 1); ("ether__dst_unicast", 1);
       ("ip4__pre_parse", 1); ("ip4__dst_unicast", 1);
       ("tcp__pre_parse", 1); ("tcp__no_socket_match__respond_rst", 1)]
  ∧ packet_stats_tx (tx st')
    = list_to_map
        [("tcp__pre_assemble", 1); ("tcp__flag_rst", 1); ("tcp__flag_ack", 1);
         ("tcp__send", 1); ("ip4__pre_assemble", 1); ("ip4__mtu_ok__send", 1);
         ("ether__pre_assemble", 1); ("ether__src_unspec__fill", 1);
         ("ether__dst_unspec__ip4_lookup", 1);
         ("ether__dst_unspec__ip4_lookup__locnet__arp_cache_hit__send", 1)].
Proof. cbv zeta. apply (bool_decide_unpack _). vm_compute. exact I. Qed.

(** Two copies of the set, one after the other, complete twice. *)
Example two_sets_complete_twice :
  stat "ip4__defrag"
       (packet_stats_rx
          (receive plain_codec test_stack
             (ip4_fragment_frame test_stack LOCNET_MAC_ADDRESS LOCNET_IP4_ADDRESS
                (address STACK_IP4_HOST) IP_PROTO_UDP 1%N five_pieces
              <$> [0; 1; 2; 3; 4; 0; 1; 2; 3; 4]) fresh)) = 2.
Proof. cbv zeta. apply (bool_decide_unpack _). vm_compute. exact I. Qed.

(** The daytime loop stops at the first round at which the flag is clear. *)
Example daytime_stops_at_round_3 :
  Daytime.sending_loop (λ i, bool_decide (i < 3)) (λ _, true) 10 0
    Daytime.default_message_count
  = Some (Daytime.ThreadStopped, 3).
Proof. reflexivity. Qed.

End Worked.

(** ** The handler, the services and the harness: further properties *)

Section ArpMore.
Import Arp.

Variable ArpParser : PacketRx → PacketRx.
Variable config : Config.

Ltac arp_cases :=
  unfold on_request, on_reply, py_in;
  repeat match goal with
    | |- context [bool_decide ?P] => destruct (bool_decide_reflect P); simpl
    | |- context [is_broadcast ?m] => destruct (is_broadcast m) eqn:?; simpl
    | |- context [arp_cache_update_from_direct_request ?c] =>
        destruct (arp_cache_update_from_direct_request c) eqn:?; simpl
    | |- context [arp_cache_update_from_gratuitious_reply ?c] =>
        destruct (arp_cache_update_from_gratuitious_reply c) eqn:?; simpl
    end.

(** X1: [_phrx_arp] calls [_phtx_arp] at most once, and it calls it exactly
    when the packet parsed, is a request, its sender address is not one of
    the stack's unicast addresses and its target address is one; the reply
    then goes to the sender's MAC, from the stack's MAC, with the target
    address as its sender address and the tracker of the request. *)
Theorem phrx_arp_replies_iff self packet_rx :
  let p := ArpParser packet_rx in
  let calls := (_phrx_arp ArpParser config self packet_rx).2 in
  length (replies calls) ≤ 1
  ∧ ∀ r, r ∈ replies calls
         ↔ parse_failed p = ""
           ∧ ∃ a, arp p = Some a
                  ∧ oper a = ARP_OP_REQUEST
                  ∧ (spa a ∉ ip4_unicast self)
                  ∧ tpa a ∈ ip4_unicast self
                  ∧ r = {| ether_src := mac_unicast self;
                           ether_dst := sha a;
                           arp_oper := ARP_OP_REPLY;
                           arp_sha := mac_unicast self;
                           arp_spa := tpa a;
                           arp_tha := sha a;
                           arp_tpa := spa a;
                           echo_tracker := tracker p |}.
Proof.
  intros p calls. subst p calls.
  destruct (decide (parse_failed (ArpParser packet_rx) = "")) as [Hpf|Hpf].
  2:{ unfold _phrx_arp. rewrite (truthy_nonempty _ Hpf).
      simpl. split; [lia|]. intros r. split; [by intros ?%elem_of_nil|tauto]. }
  unfold _phrx_arp. rewrite Hpf, truthy_empty.
  destruct (arp (ArpParser packet_rx)) as [a|] eqn:Ha; simpl.
  2:{ split; [lia|]. intros r. split; [by intros ?%elem_of_nil|].
      by intros (_ & a & ? & _). }
  arp_cases.
  all: (split; [cbn; lia|]); intros r; rewrite ?elem_of_nil, ?list_elem_of_singleton.
  all: try (split; [done|]; intros (_ & a0 & [= <-] & ? & ? & ? & ?); done).
  all: try (split; [intros ->; split; [done|]; exists a; done|]; intros (_ & a0 & [= <-] & ? & ? & ? & ?); done).
Qed.

(** X2: [_phrx_arp] calls [arp_cache.add_entry] at most once, always with
    the sender addresses [(spa, sha)] of the packet, and exactly in three
    cases: a request for the stack that is answered, when
    [arp_cache_update_from_direct_request] is set; a reply sent to the
    stack's MAC that is not the answer to a probe; a reply sent to the
    broadcast MAC with [spa = tpa], when
    [arp_cache_update_from_gratuitious_reply] is set. *)
Theorem phrx_arp_cache_adds_iff self packet_rx :
  let p := ArpParser packet_rx in
  let calls := (_phrx_arp ArpParser config self packet_rx).2 in
  length (cache_adds calls) ≤ 1
  ∧ ∀ ip mac,
      (ip, mac) ∈ cache_adds calls
      ↔ parse_failed p = ""
        ∧ ∃ a, arp p = Some a ∧ ip = spa a ∧ mac = sha a
               ∧ (oper a = ARP_OP_REQUEST
                  ∧ (spa a ∉ ip4_unicast self) ∧ tpa a ∈ ip4_unicast self
                  ∧ arp_cache_update_from_direct_request config = true
                  ∨ oper a = ARP_OP_REPLY
                    ∧ dst (ether p) = mac_unicast self
                    ∧ ¬ (spa a ∈ address <$> ip4_host_candidate self
                         ∧ tha a = mac_unicast self ∧ tpa a = ip4_unspecified)
                  ∨ oper a = ARP_OP_REPLY
                    ∧ dst (ether p) ≠ mac_unicast self
                    ∧ is_broadcast (dst (ether p)) = true
                    ∧ spa a = tpa a
                    ∧ arp_cache_update_from_gratuitious_reply config = true).
Proof.
  intros p calls. subst p calls.
  destruct (decide (parse_failed (ArpParser packet_rx) = "")) as [Hpf|Hpf].
  2:{ unfold _phrx_arp. rewrite (truthy_nonempty _ Hpf).
      simpl. split; [lia|]. intros ip mac. split; [by intros ?%elem_of_nil|tauto]. }
  unfold _phrx_arp. rewrite Hpf, truthy_empty.
  destruct (arp (ArpParser packet_rx)) as [a|] eqn:Ha; simpl.
  2:{ split; [lia|]. intros ip mac. split; [by intros ?%elem_of_nil|].
      by intros (_ & a & ? & _). }
  assert (ARP_OP_REQUEST ≠ ARP_OP_REPLY) as Hops by done.
  arp_cases.
  all: (split; [cbn; lia|]); intros ip mac;
    rewrite ?elem_of_nil, ?list_elem_of_singleton.
  all: split;
    [ intros H;
      first [ injection H as -> ->; split; [done|]; exists a; intuition congruence
            | destruct H ]
    | intros (_ & a0 & Heq & -> & -> & Hcase); injection Heq as <-;
      first [ reflexivity | exfalso; intuition congruence ] ].
Qed.

Lemma phrx_arp_reads_addresses_only self self0 packet_rx :
  mac_unicast self0 = mac_unicast self →
  ip4_unicast self0 = ip4_unicast self →
  ip4_host_candidate self0 = ip4_host_candidate self →
  (∃ calls, _phrx_arp ArpParser config self packet_rx = (AttributeError, calls)
            ∧ _phrx_arp ArpParser config self0 packet_rx = (AttributeError, calls))
  ∨ ∃ (upd : PacketHandler → PacketHandler) calls,
      (upd = id ∨ ∃ ip, upd = λ s, add_conflict s ip)
      ∧ _phrx_arp ArpParser config self packet_rx = (Returned (upd self), calls)
      ∧ _phrx_arp ArpParser config self0 packet_rx = (Returned (upd self0), calls).
Proof.
  intros Hmac Hip Hcand. unfold _phrx_arp.
  destruct (truthy (parse_failed (ArpParser packet_rx))).
  { right. exists id. eexists. split; [by left|]. by split. }
  destruct (arp (ArpParser packet_rx)) as [a|]; [|left; by eexists].
  right. unfold on_request, on_reply, py_in. rewrite Hmac, Hip, Hcand.
  repeat match goal with
    | |- context [bool_decide ?P] => destruct (bool_decide_reflect P); simpl
    | |- context [is_broadcast ?m] => destruct (is_broadcast m) eqn:?; simpl
    | |- context [arp_cache_update_from_direct_request ?c] =>
        destruct (arp_cache_update_from_direct_request c) eqn:?; simpl
    | |- context [arp_cache_update_from_gratuitious_reply ?c] =>
        destruct (arp_cache_update_from_gratuitious_reply c) eqn:?; simpl
    end.
  all: first
    [ exists id; eexists; split; [by left|]; split; reflexivity
    | exists (λ s, add_conflict s (spa a)); eexists;
      split; [right; by eexists|]; split; reflexivity ].
Qed.

(** X3: [_phrx_arp] leaves the addresses of the handler as they are; the
    set [arp_probe_unicast_conflict] never shrinks, and it changes only for
    a reply sent to the stack's MAC whose sender address is a candidate,
    whose target MAC is the stack's and whose target address is 0.0.0.0:
    the sender address is then added. *)
Theorem phrx_arp_state_frame self packet_rx self' calls :
  _phrx_arp ArpParser config self packet_rx = (Returned self', calls) →
  mac_unicast self' = mac_unicast self
  ∧ ip4_unicast self' = ip4_unicast self
  ∧ ip4_host_candidate self' = ip4_host_candidate self
  ∧ arp_probe_unicast_conflict self ⊆ arp_probe_unicast_conflict self'
  ∧ (self' = self
     ∨ ∃ a, arp (ArpParser packet_rx) = Some a
            ∧ oper a = ARP_OP_REPLY
            ∧ dst (ether (ArpParser packet_rx)) = mac_unicast self
            ∧ spa a ∈ address <$> ip4_host_candidate self
            ∧ tha a = mac_unicast self
            ∧ tpa a = ip4_unspecified
            ∧ arp_probe_unicast_conflict self'
              = {[ spa a ]} ∪ arp_probe_unicast_conflict self).
Proof.
  unfold _phrx_arp.
  destruct (truthy (parse_failed (ArpParser packet_rx))).
  { intros [= <- <-]. repeat split; [done|by left]. }
  destruct (arp (ArpParser packet_rx)) as [a|]; [|done].
  arp_cases.
  all: intros [= <- <-]; simpl.
  all: repeat (split; [first [done | apply union_subseteq_r]|]).
  all: first [ by left | right; exists a; done ].
Qed.

Lemma phrx_arp_returned_fields self packet_rx self' calls :
  _phrx_arp ArpParser config self packet_rx = (Returned self', calls) →
  mac_unicast self' = mac_unicast self
  ∧ ip4_unicast self' = ip4_unicast self
  ∧ ip4_host_candidate self' = ip4_host_candidate self.
Proof.
  intros Hrun.
  destruct (phrx_arp_reads_addresses_only self self packet_rx eq_refl eq_refl eq_refl)
    as [(c & Hr & _)|(upd & c & Hu & Hr & _)]; [congruence|].
  rewrite Hrun in Hr. injection Hr as -> ->.
  by destruct Hu as [->|[ip ->]].
Qed.

(** X4: [_phrx_arp] never reads [arp_probe_unicast_conflict]: what it does
    for a packet does not depend on the packets handled before.  Two
    packets handled in either order give the same calls for each and the
    same handler in the end. *)
Theorem phrx_arp_history_independent self p1 p2 self1 calls1 self2 calls2 :
  _phrx_arp ArpParser config self p1 = (Returned self1, calls1) →
  _phrx_arp ArpParser config self p2 = (Returned self2, calls2) →
  ∃ s, _phrx_arp ArpParser config self1 p2 = (Returned s, calls2)
       ∧ _phrx_arp ArpParser config self2 p1 = (Returned s, calls1).
Proof.
  intros H1 H2.
  destruct (phrx_arp_returned_fields _ _ _ _ H1) as (Hm1 & Hi1 & Hc1).
  destruct (phrx_arp_returned_fields _ _ _ _ H2) as (Hm2 & Hi2 & Hc2).
  destruct (phrx_arp_reads_addresses_only self self2 p1 Hm2 Hi2 Hc2)
    as [(c & Hr & _)|(upd1 & c1 & Hu1 & Hr1 & Hr1')]; [congruence|].
  destruct (phrx_arp_reads_addresses_only self self1 p2 Hm1 Hi1 Hc1)
    as [(c & Hr & _)|(upd2 & c2 & Hu2 & Hr2 & Hr2')]; [congruence|].
  rewrite H1 in Hr1. injection Hr1 as -> ->.
  rewrite H2 in Hr2. injection Hr2 as -> ->.
  exists (upd2 (upd1 self)). split; [exact Hr2'|]. rewrite Hr1'. f_equal. f_equal.
  destruct Hu1 as [->|[ip1 ->]], Hu2 as [->|[ip2 ->]]; try reflexivity.
  unfold add_conflict. simpl. f_equal.
  by rewrite !(assoc_L (∪)), (comm_L (∪) {[ip1]}).
Qed.

End ArpMore.

Section DaytimeMore.
Import Daytime DaytimeService.

Variable message_delay : Z.
Variable run_thread : nat → bool.
Variable send_ok : nat → bool.
Variable now : nat → string.

(** Where the loop is left, from any count. *)
Lemma sending_loop_exit fuel : ∀ i message_count e j,
  sending_loop run_thread send_ok fuel i message_count = Some (e, j) →
  i ≤ j
  ∧ (∀ r, i ≤ r < j → run_thread r = true ∧ send_ok r = true)
  ∧ (e = ThreadStopped ∧ run_thread j = false
     ∨ e = CountExhausted ∧ run_thread j = true
     ∨ e = SendError ∧ run_thread j = true ∧ send_ok j = false)
  ∧ (e = CountExhausted → (0 ≤ message_count)%Z ∧ j = i + Z.to_nat message_count)
  ∧ ((0 ≤ message_count)%Z →
     j ≤ i + Z.to_nat message_count
     ∧ (e = SendError → j < i + Z.to_nat message_count)).
Proof.
  induction fuel as [|fuel IH]; intros i mc e j; simpl; [done|].
  destruct (run_thread i) eqn:Hr; simpl.
  2:{ intros [= <- <-]. split; [lia|]. split; [intros; lia|].
      split; [by left|]. split; [done|]. intros _. split; [lia|done]. }
  destruct (Z.eqb_spec mc 0) as [->|Hmc].
  { intros [= <- <-]. split; [lia|]. split; [intros; lia|].
    split; [right; by left|]. split; [intros _; simpl; lia|].
    intros _. split; [lia|done]. }
  destruct (send_ok i) eqn:Hs; simpl.
  2:{ intros [= <- <-]. split; [lia|]. split; [intros; lia|].
      split; [right; by right|]. split; [done|]. intros Hge. lia. }
  intros Hloop. apply IH in Hloop as (Hle & Hgood & Hat & Hex & Hbound).
  rewrite next_count_pred in Hex, Hbound.
  split; [lia|]. split; [|split; [done|]].
  - intros r Hr'. destruct (decide (r = i)) as [->|]; [done|apply Hgood; lia].
  - split; [intros He; specialize (Hex He); lia|].
    intros Hge. destruct Hbound as [Hb1 Hb2]; [lia|].
    split; [lia|]. intros He. specialize (Hb2 He). lia.
Qed.

Lemma sending_loop_total fuel : ∀ i message_count,
  (0 ≤ message_count)%Z → Z.to_nat message_count < fuel →
  is_Some (sending_loop run_thread send_ok fuel i message_count).
Proof.
  induction fuel as [|fuel IH]; intros i mc Hge Hfuel; simpl; [lia|].
  destruct (run_thread i); simpl; [|done].
  destruct (Z.eqb_spec mc 0) as [->|Hmc]; [done|].
  destruct (send_ok i); simpl; [|done].
  apply IH; rewrite next_count_pred; lia.
Qed.

(** X5: with a count [message_count ≥ 0] the loop of [service] is left
    within [message_count] rounds, whatever the socket and the stop flag
    do, and it is left because the count ran out exactly when the first
    [message_count] rounds went through and the flag is still set at the
    test that follows them. *)
Theorem daytime_count_bounds_rounds fuel message_count :
  (0 ≤ message_count)%Z → Z.to_nat message_count < fuel →
  ∃ e j, sending_loop run_thread send_ok fuel 0 message_count = Some (e, j)
         ∧ j ≤ Z.to_nat message_count
         ∧ (e = CountExhausted
            ↔ (∀ r, r < Z.to_nat message_count →
                    run_thread r = true ∧ send_ok r = true)
              ∧ run_thread (Z.to_nat message_count) = true).
Proof.
  intros Hge Hfuel.
  destruct (sending_loop_total fuel 0 message_count Hge Hfuel) as [[e j] Hloop].
  exists e, j. split; [done|].
  destruct (sending_loop_exit _ _ _ _ _ Hloop) as (_ & Hgood & Hat & Hex & Hbound).
  destruct (Hbound Hge) as [Hle Hse]. simpl in Hle, Hse. split; [done|]. split.
  - intros ->. destruct (Hex eq_refl) as [_ ->]. simpl.
    split; [intros r Hr; apply Hgood; lia|].
    by destruct Hat as [[? _]|[[_ ?]|[? _]]].
  - intros [Hall Hrun].
    destruct (decide (j = Z.to_nat message_count)) as [->|Hne].
    + destruct Hat as [[_ Hat]|[[? _]|[He _]]]; [congruence|done|].
      specialize (Hse He). lia.
    + assert (j < Z.to_nat message_count) as Hlt by lia.
      destruct (Hall j Hlt) as [Hr Hs].
      destruct Hat as [[_ Hat]|[[He _]|[_ [_ Hat]]]]; [congruence| |congruence].
      destruct (Hex He) as [_ Hj]. simpl in Hj. lia.
Qed.

(** X6: the loop of [service] is left because the count ran out only when
    [message_count] was not negative, and then after exactly
    [message_count] rounds, all of which went through. *)
Theorem daytime_count_exhausted_after fuel message_count j :
  sending_loop run_thread send_ok fuel 0 message_count = Some (CountExhausted, j) →
  (0 ≤ message_count)%Z ∧ Z.of_nat j = message_count
  ∧ ∀ r, r < j → run_thread r = true ∧ send_ok r = true.
Proof.
  intros Hloop.
  destruct (sending_loop_exit _ _ _ _ _ Hloop) as (_ & Hgood & _ & Hex & _).
  destruct (Hex eq_refl) as [Hge ->]. simpl.
  split; [done|]. split; [lia|]. intros r Hr. apply Hgood. simpl. lia.
Qed.






End DaytimeMore.

Section DiscardMore.
Import Discard.

Variable run_thread : nat → bool.
Variable datagram : nat → list Byte.byte * (string * N).

Lemma discard_service_from fuel : ∀ i t,
  service run_thread datagram fuel i = Some t
  ↔ ∃ k, k < fuel
         ∧ (∀ r, i ≤ r < i + k → run_thread r = true)
         ∧ run_thread (i + k) = false
         ∧ t = seq i k ≫= round datagram.
Proof.
  induction fuel as [|fuel IH]; intros i t; simpl.
  { split; [done|]. intros (k & ? & _). lia. }
  destruct (run_thread i) eqn:Hr; simpl.
  - destruct (service run_thread datagram fuel (S i)) as [t'|] eqn:Hrest; simpl.
    + apply IH in Hrest as (k & Hk & Hgood & Hstop & ->). split.
      * intros [= <-]. exists (S k). split; [lia|]. split; [|split].
        -- intros r Hr'. destruct (decide (r = i)) as [->|]; [done|].
           apply Hgood. lia.
        -- by replace (i + S k) with (S i + k) by lia.
        -- done.
      * intros (k' & Hk' & Hgood' & Hstop' & ->).
        destruct k' as [|k']; [rewrite Nat.add_0_r in Hstop'; congruence|].
        replace (i + S k') with (S i + k') in Hstop' by lia.
        assert (k' = k) as ->; [|done].
        destruct (Nat.lt_trichotomy k' k) as [Hlt|[?|Hlt]]; [|done|].
        -- rewrite Hgood in Hstop' by lia. done.
        -- rewrite Hgood' in Hstop by lia. done.
    + split; [done|]. intros (k & Hk & Hgood & Hstop & ->).
      destruct k as [|k]; [rewrite Nat.add_0_r in Hstop; congruence|].
      assert (service run_thread datagram fuel (S i) = Some (seq (S i) k ≫= round datagram))
        as Hsome; [|congruence].
      apply IH. exists k. split; [lia|]. split; [|split; [|done]].
      * intros r Hr'. apply Hgood. lia.
      * by replace (S i + k) with (i + S k) by lia.
  - split.
    + intros [= <-]. exists 0. rewrite Nat.add_0_r. split; [lia|].
      split; [intros; lia|done].
    + intros (k & Hk & Hgood & Hstop & ->).
      destruct k as [|k]; [done|]. rewrite Hgood in Hr by lia. done.
Qed.

(** X9: [service] of the discard service returns exactly when the stop
    flag is clear at some loop test; up to the first such test it takes one
    datagram per round and echoes one line for it, with the length of the
    datagram and the address and port of its sender, and it does nothing
    else. *)
Theorem discard_service_rounds fuel t :
  service run_thread datagram fuel 0 = Some t
  ↔ ∃ k, k < fuel
         ∧ (∀ r, r < k → run_thread r = true)
         ∧ run_thread k = false
         ∧ t = seq 0 k ≫= (λ r, [Recvfrom;
                                 Echo (length (datagram r).1)
                                      (datagram r).2.1 (datagram r).2.2]).
Proof.
  assert (∀ l, l ≫= round datagram
               = l ≫= (λ r, [Recvfrom; Echo (length (datagram r).1)
                                         (datagram r).2.1 (datagram r).2.2]))
    as Hround.
  { induction l as [|r l IH]; [done|]. cbn. rewrite <- IH. unfold round at 1.
    by destruct (datagram r) as [m [ip port]]. }
  rewrite discard_service_from.
  split; intros (k & ? & Hgood & ? & ->); exists k;
    (split; [done|]); (split; [intros; apply Hgood; lia|]); (split; [done|]);
    by rewrite Hround.
Qed.

End DiscardMore.

Section HarnessMore.
Import Harness.

Variable Packet : Type.
Variable assemble : Packet → Buffer → Buffer.
Variable assemble_result : Packet → bool.

Lemma run_from ps : ∀ b k,
  foldl (enqueue Packet assemble assemble_result)
        {| heap := {[ 0 := b ]}; packet_tx := 0; packets_tx := replicate k 0 |} ps
  = {| heap := {[ 0 := foldl (λ b p, assemble p b) b ps ]}; packet_tx := 0;
       packets_tx :=
         replicate (k + length (filter (λ p, assemble_result p = false) ps)) 0 |}.
Proof.
  induction ps as [|p ps IH]; intros b k; cbn [foldl].
  { by rewrite filter_nil, Nat.add_0_r. }
  assert (enqueue Packet assemble assemble_result
            {| heap := {[ 0 := b ]}; packet_tx := 0; packets_tx := replicate k 0 |} p
          = {| heap := {[ 0 := assemble p b ]}; packet_tx := 0;
               packets_tx := replicate (if assemble_result p then k else S k) 0 |})
    as ->.
  { unfold enqueue. cbn [heap packet_tx packets_tx]. rewrite alter_singleton.
    destruct (assemble_result p); [done|]. by rewrite <- replicate_S_end. }
  rewrite IH. destruct (assemble_result p) eqn:Hres.
  - by rewrite filter_cons_False by congruence.
  - rewrite filter_cons_True by done. simpl. by rewrite Nat.add_succ_r.
Qed.

(** The test case after any run: one buffer, and a list that holds the
    reference to it once for every packet whose [assemble] was falsy. *)
Lemma run_state ps :
  run Packet assemble assemble_result ps
  = {| heap := {[ 0 := foldl (λ b p, assemble p b) new_buffer ps ]};
       packet_tx := 0;
       packets_tx :=
         replicate (length (filter (λ p, assemble_result p = false) ps)) 0 |}.
Proof. exact (run_from ps new_buffer 0). Qed.

Lemma captured_run ps index n :
  captured (run Packet assemble assemble_result ps) index n
  = if decide (index < length (filter (λ p, assemble_result p = false) ps))
    then Some (take n (foldl (λ b p, assemble p b) new_buffer ps))
    else None.
Proof.
  rewrite run_state. unfold captured. cbn [heap packet_tx packets_tx].
  case_decide as Hlt.
  - rewrite lookup_replicate_2 by done. cbn [mbind option_bind].
    by rewrite lookup_singleton_eq.
  - rewrite lookup_ge_None_2 by (rewrite length_replicate; lia). done.
Qed.

(** X10: every entry of [self.packets_tx] is the buffer [self.packet_tx]
    itself: whichever entry is read, and whenever it was appended, it shows
    the buffer as the last packet left it.  The list has one entry for
    every packet whose [assemble] returned a falsy value. *)
Theorem harness_captures_alias ps index n :
  captured (run Packet assemble assemble_result ps) index n
  = if decide (index < length (filter (λ p, assemble_result p = false) ps))
    then last_frame (run Packet assemble assemble_result ps) n
    else None.
Proof.
  rewrite captured_run. case_decide; [|done].
  rewrite run_state. unfold last_frame. cbn [heap packet_tx].
  by rewrite lookup_singleton_eq.
Qed.

(** X11: the closing loop of the transmit-fragmentation tests passes only
    if at least five frames were captured and every expected fragment is a
    prefix of the one buffer, as the last frame left it; so of two expected
    fragments the shorter is a prefix of the longer. *)
Theorem harness_frags_match_prefixes ps frags :
  frags_match (run Packet assemble assemble_result ps) frags = true →
  5 ≤ length (filter (λ p, assemble_result p = false) ps)
  ∧ ∀ i j fi fj,
      i < 5 → j < 5 → frags !! i = Some fi → frags !! j = Some fj →
      length fi ≤ length fj → fi `prefix_of` fj.
Proof.
  unfold frags_match. rewrite forallb_forall. intros Hall.
  assert (∀ i f, i < 5 → frags !! i = Some f →
            captured (run Packet assemble assemble_result ps) i (length f)
            = Some f) as Hidx.
  { intros i f Hi Hf. specialize (Hall i). rewrite in_seq, Hf in Hall.
    eapply bool_decide_eq_true_1, Hall. lia. }
  assert (∃ f4, frags !! 4 = Some f4) as [f4 Hf4].
  { specialize (Hall 4). rewrite in_seq in Hall.
    destruct (frags !! 4) as [f|]; [by eexists|]. discriminate Hall. lia. }
  split.
  - specialize (Hidx 4 f4). rewrite captured_run in Hidx.
    case_decide; [lia|]. discriminate Hidx; [lia|done].
  - intros i j fi fj Hi Hj Hfi Hfj Hle.
    pose proof (Hidx i fi Hi Hfi) as Hci. pose proof (Hidx j fj Hj Hfj) as Hcj.
    rewrite captured_run in Hci, Hcj.
    case_decide; [|done]. case_decide; [|done].
    injection Hci as Hci. injection Hcj as Hcj.
    exists (drop (length fi) fj). rewrite <- (take_drop (length fi) fj) at 1.
    f_equal. rewrite <- Hcj, take_take, Nat.min_l by done. exact Hci.
Qed.

End HarnessMore.

Section ScenariosMore.
Import Reassembly Flows.

Variable codec : Codec.
Variable stack : Stack.

(** A datagram that no socket takes and the echo service does not take. *)
Lemma phrx_upper_udp_closed src dst data u st :
  udp_parse codec src dst data = Some u →
  list_find (socket_matches dst (udp_dport u)) (udp_sockets stack) = None →
  udp_dport u ≠ UDP_ECHO_PORT ∨ UDP_ECHO_NATIVE_DISABLE stack = true →
  phrx_upper codec stack src dst IP_PROTO_UDP data st
  = respond (phtx_icmp_unreachable_port codec stack dst src data)
      (bump_rx (match dst with
                | V4 _ => "udp__no_socket_match__respond_icmp4_unreachable"
                | V6 _ => "udp__no_socket_match__respond_icmp6_unreachable"
                end) (bump_rx "udp__pre_parse" st)).
Proof.
  intros Hp Hfind Hno. unfold phrx_upper, phrx_udp. cbn [bool_decide].
  rewrite bool_decide_eq_true_2 by done. rewrite Hp, Hfind.
  destruct Hno as [Hport| ->].
  - by rewrite (bool_decide_eq_false_2 _ Hport), andb_false_r.
  - done.
Qed.

(** X12: an IPv4 UDP datagram for a port that no socket takes and the echo
    service does not take, from a peer of the local network that the ARP
    cache resolves.  The receive and transmit counters are those of
    [test_packet_flow_rx_tx__udp__ip4_udp_to_closed_port], nothing is
    delivered, and one frame is put on the TX ring: the ICMPv4 message for
    the datagram, from the stack to the peer. *)
Theorem ip4_udp_to_closed_port peer_mac peer host id data u :
  host ∈ address <$> ip4_host stack →
  udp_parse codec (V4 peer) (V4 host) data = Some u →
  list_find (socket_matches (V4 host) (udp_dport u)) (udp_sockets stack) = None →
  udp_dport u ≠ UDP_ECHO_PORT ∨ UDP_ECHO_NATIVE_DISABLE stack = true →
  ip4_is_multicast peer = false →
  existsb (λ h, ip4_in_network h peer) (ip4_host stack) = true →
  arp_cache stack !! peer = Some peer_mac →
  let reply := icmp_unreachable_port codec (V4 host) (V4 peer) data in
  IP4_HEADER_LEN + length reply ≤ TAP_MTU stack →
  let st' := phrx_ether codec stack
               (ip4_intact_frame stack peer_mac peer host IP_PROTO_UDP id data)
               fresh in
  packet_stats_rx st'
  = list_to_map
      [("ether__pre_parse", 1); ("ether__dst_unicast", 1);
       ("ip4__pre_parse", 1); ("ip4__dst_unicast", 1);
       ("udp__pre_parse", 1);
       ("udp__no_socket_match__respond_icmp4_unreachable", 1)]
  ∧ packet_stats_tx (tx st')
    = list_to_map
        [("icmp4__pre_assemble", 1); ("icmp4__unreachable_port__send", 1);
         ("ip4__pre_assemble", 1); ("ip4__mtu_ok__send", 1);
         ("ether__pre_assemble", 1); ("ether__src_unspec__fill", 1);
         ("ether__dst_unspec__ip4_lookup", 1);
         ("ether__dst_unspec__ip4_lookup__locnet__arp_cache_hit__send", 1)]
  ∧ tx_ring (tx st')
    = [ {| ether_dst := peer_mac; ether_src := mac_address stack;
           ether_payload :=
             EtherIp4 {| ip4_src := host; ip4_dst := peer;
                         ip4_proto := IP_PROTO_ICMP4; ip4_id := 0;
                         ip4_flag_mf := false; ip4_offset := 0;
                         ip4_data := reply |} |} ]
  ∧ delivered st' = [].
Proof.
  intros Hhost Hp Hfind Hno Hmc Hloc Harp reply Hfit st'. subst st'.
  rewrite phrx_ether_ip4_intact by done.
  rewrite (phrx_upper_udp_closed _ _ _ u) by done.
  unfold respond. cbn [packet_stats_rx tx delivered bump_rx foldr fresh].
  unfold phtx_icmp_unreachable_port, phtx_ip, phtx_ip4. fold reply.
  rewrite bool_decide_eq_true_2 by done.
  rewrite (phtx_ether_ip4_hit stack peer peer_mac Hmc Hloc Harp) by done.
  split; [|split; [|split]].
  - apply (bool_decide_unpack _). vm_compute. exact I.
  - cbn. apply (bool_decide_unpack _). vm_compute. exact I.
  - reflexivity.
  - reflexivity.
Qed.

(** X13: the same over IPv6, the peer being resolved by the ND cache: the
    counters are those of
    [test_packet_flow_rx_tx__udp__ip6_udp_to_closed_port], and the one
    frame carries the ICMPv6 message. *)
Theorem ip6_udp_to_closed_port peer_mac peer host data u :
  host ∈ address6 <$> ip6_host stack →
  udp_parse codec (V6 peer) (V6 host) data = Some u →
  list_find (socket_matches (V6 host) (udp_dport u)) (udp_sockets stack) = None →
  udp_dport u ≠ UDP_ECHO_PORT ∨ UDP_ECHO_NATIVE_DISABLE stack = true →
  ip6_is_multicast peer = false →
  existsb (λ h, ip6_in_network h peer) (ip6_host stack) = true →
  nd_cache stack !! peer = Some peer_mac →
  let reply := icmp_unreachable_port codec (V6 host) (V6 peer) data in
  IP6_HEADER_LEN + length reply ≤ TAP_MTU stack →
  let st' := phrx_ether codec stack
               (ip6_intact_frame stack peer_mac peer host IP_PROTO_UDP data)
               fresh in
  packet_stats_rx st'
  = list_to_map
      [("ether__pre_parse", 1); ("ether__dst_unicast", 1);
       ("ip6__pre_parse", 1); ("ip6__dst_unicast", 1);
       ("udp__pre_parse", 1);
       ("udp__no_socket_match__respond_icmp6_unreachable", 1)]
  ∧ packet_stats_tx (tx st')
    = list_to_map
        [("icmp6__pre_assemble", 1); ("icmp6__unreachable_port__send", 1);
         ("ip6__pre_assemble", 1); ("ip6__mtu_ok__send", 1);
         ("ether__pre_assemble", 1); ("ether__src_unspec__fill", 1);
         ("ether__dst_unspec__ip6_lookup", 1);
         ("ether__dst_unspec__ip6_lookup__locnet__nd_cache_hit__send", 1)]
  ∧ tx_ring (tx st')
    = [ {| ether_dst := peer_mac; ether_src := mac_address stack;
           ether_payload :=
             EtherIp6 {| ip6_src := host; ip6_dst := peer;
                         ip6_payload := Ip6Upper IP_PROTO_ICMP6 reply |} |} ]
  ∧ delivered st' = [].
Proof.
  intros Hhost Hp Hfind Hno Hmc Hloc Hnd reply Hfit st'. subst st'.
  rewrite phrx_ether_ip6_intact by done.
  rewrite (phrx_upper_udp_closed _ _ _ u) by done.
  unfold respond. cbn [packet_stats_rx tx delivered bump_rx foldr fresh].
  unfold phtx_icmp_unreachable_port, phtx_ip, phtx_ip6. fold reply.
  rewrite bool_decide_eq_true_2 by done.
  unfold phtx_ip6_fit, phtx_ether, phtx_ether_ip6. cbn [ip6_dst].
  rewrite Hmc, Hloc, Hnd.
  split; [|split; [|split]].
  - apply (bool_decide_unpack _). vm_compute. exact I.
  - cbn. apply (bool_decide_unpack _). vm_compute. exact I.
  - reflexivity.
  - reflexivity.
Qed.

(** X14: an IPv4 UDP datagram for the echo port that arrives in one frame
    and whose echo fits the MTU.  The counters are those of
    [test_packet_flow_rx_tx__udp__ip4_udp_echo], and the one frame on the
    TX ring carries the data of the datagram back to the peer with the two
    ports exchanged. *)
Theorem ip4_udp_echo_intact peer_mac peer host id data u :
  host ∈ address <$> ip4_host stack →
  udp_parse codec (V4 peer) (V4 host) data = Some u →
  udp_dport u = UDP_ECHO_PORT →
  UDP_ECHO_NATIVE_DISABLE stack = false →
  list_find (socket_matches (V4 host) (udp_dport u)) (udp_sockets stack) = None →
  ip4_is_multicast peer = false →
  existsb (λ h, ip4_in_network h peer) (ip4_host stack) = true →
  arp_cache stack !! peer = Some peer_mac →
  let echo :=
    udp_assemble codec (V4 host) (V4 peer)
      {| udp_sport := udp_dport u; udp_dport := udp_sport u;
         udp_data := udp_data u |} in
  IP4_HEADER_LEN + length echo ≤ TAP_MTU stack →
  let st' := phrx_ether codec stack
               (ip4_intact_frame stack peer_mac peer host IP_PROTO_UDP id data)
               fresh in
  packet_stats_rx st'
  = list_to_map
      [("ether__pre_parse", 1); ("ether__dst_unicast", 1);
       ("ip4__pre_parse", 1); ("ip4__dst_unicast", 1);
       ("udp__pre_parse", 1); ("udp__echo_native__respond_udp", 1)]
  ∧ packet_stats_tx (tx st')
    = list_to_map
        [("udp__pre_assemble", 1); ("udp__send", 1);
         ("ip4__pre_assemble", 1); ("ip4__mtu_ok__send", 1);
         ("ether__pre_assemble", 1); ("ether__src_unspec__fill", 1);
         ("ether__dst_unspec__ip4_lookup", 1);
         ("ether__dst_unspec__ip4_lookup__locnet__arp_cache_hit__send", 1)]
  ∧ tx_ring (tx st')
    = [ {| ether_dst := peer_mac; ether_src := mac_address stack;
           ether_payload :=
             EtherIp4 {| ip4_src := host; ip4_dst := peer;
                         ip4_proto := IP_PROTO_UDP; ip4_id := 0;
                         ip4_flag_mf := false; ip4_offset := 0;
                         ip4_data := echo |} |} ]
  ∧ delivered st' = [].
Proof.
  intros Hhost Hp Hport Hecho Hfind Hmc Hloc Harp echo Hfit st'. subst st'.
  rewrite phrx_ether_ip4_intact by done.
  rewrite (phrx_upper_udp_echo _ _ _ _ _ u) by done.
  unfold respond. cbn [packet_stats_rx tx delivered bump_rx foldr fresh].
  unfold phtx_udp, phtx_ip, phtx_ip4, udp_echo_of. fold echo.
  rewrite bool_decide_eq_true_2 by done.
  rewrite (phtx_ether_ip4_hit stack peer peer_mac Hmc Hloc Harp) by done.
  split; [|split; [|split]].
  - apply (bool_decide_unpack _). vm_compute. exact I.
  - cbn. apply (bool_decide_unpack _). vm_compute. exact I.
  - reflexivity.
  - reflexivity.
Qed.

(** X15: the same over IPv6, with the counters of
    [test_packet_flow_rx_tx__udp__ip6_udp_echo]. *)
Theorem ip6_udp_echo_intact peer_mac peer host data u :
  host ∈ address6 <$> ip6_host stack →
  udp_parse codec (V6 peer) (V6 host) data = Some u →
  udp_dport u = UDP_ECHO_PORT →
  UDP_ECHO_NATIVE_DISABLE stack = false →
  list_find (socket_matches (V6 host) (udp_dport u)) (udp_sockets stack) = None →
  ip6_is_multicast peer = false →
  existsb (λ h, ip6_in_network h peer) (ip6_host stack) = true →
  nd_cache stack !! peer = Some peer_mac →
  let echo :=
    udp_assemble codec (V6 host) (V6 peer)
      {| udp_sport := udp_dport u; udp_dport := udp_sport u;
         udp_data := udp_data u |} in
  IP6_HEADER_LEN + length echo ≤ TAP_MTU stack →
  let st' := phrx_ether codec stack
               (ip6_intact_frame stack peer_mac peer host IP_PROTO_UDP data)
               fresh in
  packet_stats_rx st'
  = list_to_map
      [("ether__pre_parse", 1); ("ether__dst_unicast", 1);
       ("ip6__pre_parse", 1); ("ip6__dst_unicast", 1);
       ("udp__pre_parse", 1); ("udp__echo_native__respond_udp", 1)]
  ∧ packet_stats_tx (tx st')
    = list_to_map
        [("udp__pre_assemble", 1); ("udp__send", 1);
         ("ip6__pre_assemble", 1); ("ip6__mtu_ok__send", 1);
         ("ether__pre_assemble", 1); ("ether__src_unspec__fill", 1);
         ("ether__dst_unspec__ip6_lookup", 1);
         ("ether__dst_unspec__ip6_lookup__locnet__nd_cache_hit__send", 1)]
  ∧ tx_ring (tx st')
    = [ {| ether_dst := peer_mac; ether_src := mac_address stack;
           ether_payload :=
             EtherIp6 {| ip6_src := host; ip6_dst := peer;
                         ip6_payload := Ip6Upper IP_PROTO_UDP echo |} |} ]
  ∧ delivered st' = [].
Proof.
  intros Hhost Hp Hport Hecho Hfind Hmc Hloc Hnd echo Hfit st'. subst st'.
  rewrite phrx_ether_ip6_intact by done.
  rewrite (phrx_upper_udp_echo _ _ _ _ _ u) by done.
  unfold respond. cbn [packet_stats_rx tx delivered bump_rx foldr fresh].
  unfold phtx_udp, phtx_ip, phtx_ip6, udp_echo_of. fold echo.
  rewrite bool_decide_eq_true_2 by done.
  unfold phtx_ip6_fit, phtx_ether, phtx_ether_ip6. cbn [ip6_dst].
  rewrite Hmc, Hloc, Hnd.
  split; [|split; [|split]].
  - apply (bool_decide_unpack _). vm_compute. exact I.
  - cbn. apply (bool_decide_unpack _). vm_compute. exact I.
  - reflexivity.
  - reflexivity.
Qed.

Lemma occurrences_app name l1 l2 :
  occurrences name (l1 ++ l2) = occurrences name l1 + occurrences name l2.
Proof. unfold occurrences. by rewrite filter_app, length_app. Qed.

(** A receive counter grows by its share of every arrival and, for every
    completion, by its share of the completion and of the upper layer. *)
Lemma arrivals_rx_stat_upper per_frame per_datagram upper n ups name order :
  ∀ seen st,
  (∀ st, stat name (packet_stats_rx (upper st))
         = stat name (packet_stats_rx st) + occurrences name ups) →
  stat name (packet_stats_rx (arrivals per_frame per_datagram upper n seen order st))
  = stat name (packet_stats_rx st)
    + length order * occurrences name per_frame
    + completions n seen order
      * (occurrences name per_datagram + occurrences name ups).
Proof.
  intros seen st Hup. revert seen st.
  induction order as [|k rest IH]; intros seen st; simpl; [lia|].
  destruct (covers n (k :: seen)); rewrite IH; [rewrite Hup|];
    rewrite ?stat_bumps_rx; simpl; lia.
Qed.

(** X16: the pieces of an IPv4 UDP datagram for the echo port arrive in
    an order that completes the set once (the orders 0-1-2-3-4, 4-3-2-1-0,
    1-2-0-4-3 and 1-2-0-2-1-0-3-3-4-1 of the test module are such orders).
    Every frame counts for the five counters of a fragment, the datagram
    counts once for [ip4__defrag], [udp__pre_parse] and
    [udp__echo_native__respond_udp], no other receive counter moves, and
    the transmit state is that of the datagram received in one frame. *)
Theorem ip4_udp_echo_rx_frag_once peer_mac peer host id chunks u pre k post :
  host ∈ address <$> ip4_host stack →
  well_cut chunks = true → 2 ≤ length chunks →
  udp_parse codec (V4 peer) (V4 host) (concat chunks) = Some u →
  udp_dport u = UDP_ECHO_PORT →
  UDP_ECHO_NATIVE_DISABLE stack = false →
  list_find (socket_matches (V4 host) (udp_dport u)) (udp_sockets stack) = None →
  Forall (λ i, i < length chunks) (pre ++ k :: post) →
  covers (length chunks) pre = false →
  covers (length chunks) (pre ++ [k]) = true →
  covers (length chunks) post = false →
  let order := pre ++ k :: post in
  let st' := receive codec stack
               (ip4_fragment_frame stack peer_mac peer host IP_PROTO_UDP id chunks
                <$> order) fresh in
  (∀ name,
     stat name (packet_stats_rx st')
     = length order
       * occurrences name ["ip4__frag"; "ip4__dst_unicast"; "ip4__pre_parse";
                           "ether__dst_unicast"; "ether__pre_parse"]
       + occurrences name ["ip4__defrag"; "udp__echo_native__respond_udp";
                           "udp__pre_parse"])
  ∧ tx st' = tx (phrx_ether codec stack
                   (ip4_intact_frame stack peer_mac peer host IP_PROTO_UDP id
                      (concat chunks)) fresh).
Proof.
  intros Hhost Hcut Hlen Hp Hport Hecho Hfind Hord Hpre Hk Hpost order st'.
  subst order st'.
  destruct (receive_ip4_fragments codec stack chunks Hcut peer_mac peer host
              IP_PROTO_UDP id Hhost Hlen (pre ++ k :: post) [] fresh Hord
              (Forall_nil_2 _)) as [F HF].
  { apply holds_new. }
  rewrite HF. clear HF.
  assert (completions (length chunks) [] (pre ++ k :: post) = 1) as Hc
    by (by apply completions_once).
  split.
  - intros name. cbn [packet_stats_rx set_ip4_frag_flows].
    rewrite (arrivals_rx_stat_upper _ _ _ _
               ["udp__echo_native__respond_udp"; "udp__pre_parse"]).
    2:{ intros st. rewrite (phrx_upper_udp_echo _ _ _ _ _ u) by done.
        cbn [packet_stats_rx respond]. apply stat_bumps_rx. }
    rewrite Hc. change (stat name (packet_stats_rx fresh)) with 0.
    rewrite <- occurrences_app. unfold ip4_per_frame, ip4_per_datagram.
    cbn [app]. lia.
  - cbn [tx set_ip4_frag_flows].
    rewrite (arrivals_tx _ _ _ _
               (phtx_udp codec stack (V4 host) (V4 peer) (udp_echo_of u))).
    2:{ intros st. by rewrite (phrx_upper_udp_echo _ _ _ _ _ u) by done. }
    rewrite Hc, phrx_ether_ip4_intact by done.
    rewrite (phrx_upper_udp_echo _ _ _ _ _ u) by done.
    cbn [tx respond]. by rewrite !tx_bumps_rx.
Qed.

(** The transmit counters every outgoing IPv6 fragment bumps when its
    destination is resolved by the ND cache. *)
Lemma phtx_ip6_cut peer peer_mac src next data t :
  ip6_is_multicast peer = false →
  existsb (λ h, ip6_in_network h peer) (ip6_host stack) = true →
  nd_cache stack !! peer = Some peer_mac →
  ¬ IP6_HEADER_LEN + length data ≤ TAP_MTU stack →
  let chunks :=
    split_chunks ((TAP_MTU stack - IP6_HEADER_LEN - IP6_EXT_FRAG_LEN) / 8 * 8) data in
  let id := default 0%N (ip6_id_next t !! peer) in
  let frame k :=
    {| ether_dst := peer_mac; ether_src := mac_address stack;
       ether_payload :=
         EtherIp6 {| ip6_src := src; ip6_dst := peer;
                     ip6_payload :=
                       Ip6ExtFrag next (fr_offset (fragment_at chunks k))
                         (fr_flag_mf (fragment_at chunks k)) id
                         (fr_data (fragment_at chunks k)) |} |} in
  tx_ring (phtx_ip6 stack src peer next data t)
  = tx_ring t ++ (frame <$> seq 0 (length chunks))
  ∧ ∀ name, stat name (packet_stats_tx (phtx_ip6 stack src peer next data t))
            = stat name (packet_stats_tx t)
              + occurrences name ["ip6_ext_frag__pre_assemble";
                                  "ip6__mtu_exceed__frag"; "ip6__pre_assemble"]
              + length chunks
                * occurrences name
                    ["ether__dst_unspec__ip6_lookup__locnet__nd_cache_hit__send";
                     "ether__dst_unspec__ip6_lookup"; "ether__src_unspec__fill";
                     "ether__pre_assemble"; "ip6__mtu_ok__send";
                     "ip6__pre_assemble"; "ip6_ext_frag__send"].
Proof.
  intros Hmc Hloc Hnd Hbig chunks id frame. unfold phtx_ip6.
  rewrite bool_decide_eq_false_2 by done.
  fold chunks. cbn [ip6_id_next bump_tx set_ip6_id_next]. fold id.
  set (t0 := set_ip6_id_next _ _).
  assert (tx_ring t0 = tx_ring t) as <- by done.
  assert (∀ name, stat name (packet_stats_tx t0)
                  = stat name (packet_stats_tx t)
                    + occurrences name ["ip6_ext_frag__pre_assemble";
                                        "ip6__mtu_exceed__frag"; "ip6__pre_assemble"])
    as Ht0.
  { intros name.
    apply (stat_bumps_tx name ["ip6_ext_frag__pre_assemble";
                               "ip6__mtu_exceed__frag"; "ip6__pre_assemble"]). }
  set (names := ["ether__dst_unspec__ip6_lookup__locnet__nd_cache_hit__send";
                 "ether__dst_unspec__ip6_lookup"; "ether__src_unspec__fill";
                 "ether__pre_assemble"; "ip6__mtu_ok__send";
                 "ip6__pre_assemble"; "ip6_ext_frag__send"]).
  assert (∀ l t1,
    let t2 := foldl (λ st k,
                phtx_ip6_fit stack
                  {| ip6_src := src; ip6_dst := peer;
                     ip6_payload :=
                       Ip6ExtFrag next (fr_offset (fragment_at chunks k))
                         (fr_flag_mf (fragment_at chunks k)) id
                         (fr_data (fragment_at chunks k)) |}
                  (bump_tx "ip6_ext_frag__send" st)) t1 l in
    tx_ring t2 = tx_ring t1 ++ (frame <$> l)
    ∧ ∀ name, stat name (packet_stats_tx t2)
              = stat name (packet_stats_tx t1)
                + length l * occurrences name names) as Hfold.
  { induction l as [|k l IH]; intros t1.
    - simpl. rewrite app_nil_r. split; [done|]. intros; lia.
    - cbn [foldl].
      assert (phtx_ip6_fit stack
                {| ip6_src := src; ip6_dst := peer;
                   ip6_payload :=
                     Ip6ExtFrag next (fr_offset (fragment_at chunks k))
                       (fr_flag_mf (fragment_at chunks k)) id
                       (fr_data (fragment_at chunks k)) |}
                (bump_tx "ip6_ext_frag__send" t1)
              = enqueue (frame k) (foldr bump_tx t1 names)) as ->.
      { unfold phtx_ip6_fit, phtx_ether, phtx_ether_ip6. cbn [ip6_dst].
        rewrite Hmc, Hloc, Hnd. reflexivity. }
      destruct (IH (enqueue (frame k) (foldr bump_tx t1 names))) as [Hr Hs].
      split.
      + rewrite Hr, fmap_cons. cbn [tx_ring enqueue]. rewrite ring_bumps_tx.
        by rewrite <- app_assoc.
      + intros name. rewrite Hs. cbn [packet_stats_tx enqueue].
        rewrite stat_bumps_tx. cbn [length]. lia. }
  destruct (Hfold (seq 0 (length chunks)) t0) as [Hr Hs]. split; [exact Hr|].
  intros name. rewrite Hs, Ht0, length_seq. done.
Qed.

(** X17: an IPv6 UDP datagram for the echo port whose echo exceeds the
    MTU.  The echo leaves in [n] frames, one for each piece of the largest
    multiple of eight bytes that fits beside the IPv6 and Fragment headers,
    at the offsets of the pieces, all but the last with the M flag, whose
    payloads put together are the echo.  [ip6__mtu_exceed__frag],
    [ip6_ext_frag__pre_assemble], [udp__pre_assemble] and [udp__send] are
    1, [ip6__pre_assemble] is [n + 1], and the counters of a packet that is
    sent are [n]; with an MTU of 1500 and an echo of more than 5792 and at
    most 7240 bytes, [n] is 5, as in
    [test_packet_flow_rx_tx__ip6_frag__ip6_udp_echo_tx_frag]. *)
Theorem ip6_udp_echo_tx_frag peer_mac peer host data u :
  host ∈ address6 <$> ip6_host stack →
  udp_parse codec (V6 peer) (V6 host) data = Some u →
  udp_dport u = UDP_ECHO_PORT →
  UDP_ECHO_NATIVE_DISABLE stack = false →
  list_find (socket_matches (V6 host) (udp_dport u)) (udp_sockets stack) = None →
  ip6_is_multicast peer = false →
  existsb (λ h, ip6_in_network h peer) (ip6_host stack) = true →
  nd_cache stack !! peer = Some peer_mac →
  let echo := udp_assemble codec (V6 host) (V6 peer) (udp_echo_of u) in
  let size := (TAP_MTU stack - IP6_HEADER_LEN - IP6_EXT_FRAG_LEN) / 8 * 8 in
  let n := (length echo + size - 1) / size in
  TAP_MTU stack < IP6_HEADER_LEN + length echo →
  0 < size →
  let st' := phrx_ether codec stack
               (ip6_intact_frame stack peer_mac peer host IP_PROTO_UDP data)
               fresh in
  let piece k := take size (drop (k * size) echo) in
  tx_ring (tx st')
  = (λ k, {| ether_dst := peer_mac; ether_src := mac_address stack;
             ether_payload :=
               EtherIp6
                 {| ip6_src := host; ip6_dst := peer;
                    ip6_payload :=
                      Ip6ExtFrag IP_PROTO_UDP (k * (size / 8))
                        (bool_decide (S k < n)) 0 (piece k) |} |})
    <$> seq 0 n
  ∧ concat (piece <$> seq 0 n) = echo
  ∧ (∀ name,
       stat name (packet_stats_tx (tx st'))
       = occurrences name ["ip6_ext_frag__pre_assemble"; "ip6__mtu_exceed__frag";
                           "ip6__pre_assemble"; "udp__send"; "udp__pre_assemble"]
         + n * occurrences name
                 ["ether__dst_unspec__ip6_lookup__locnet__nd_cache_hit__send";
                  "ether__dst_unspec__ip6_lookup"; "ether__src_unspec__fill";
                  "ether__pre_assemble"; "ip6__mtu_ok__send";
                  "ip6__pre_assemble"; "ip6_ext_frag__send"])
  ∧ (TAP_MTU stack = 1500 → 4 * 1448 < length echo ≤ 5 * 1448 → n = 5).
Proof.
  intros Hhost Hp Hport Hecho Hfind Hmc Hloc Hnd echo size n Hbig Hsize st' piece.
  subst st'. rewrite phrx_ether_ip6_intact by done.
  rewrite (phrx_upper_udp_echo _ _ _ _ _ u) by done.
  cbn [tx respond]. rewrite !tx_bumps_rx. change (tx fresh) with fresh_tx.
  unfold phtx_udp, phtx_ip. fold echo.
  set (t0 := bump_tx "udp__send" _).
  assert (¬ IP6_HEADER_LEN + length echo ≤ TAP_MTU stack) as Hbig' by lia.
  destruct (phtx_ip6_cut peer peer_mac host IP_PROTO_UDP echo t0 Hmc Hloc Hnd Hbig')
    as [Hring Hstats].
  fold size in Hring, Hstats.
  rewrite split_chunks_length in Hring, Hstats. fold n in Hring, Hstats.
  split; [|split; [|split]].
  - rewrite Hring. change (tx_ring t0) with (@nil EtherFrame). rewrite app_nil_l.
    apply list_fmap_ext. intros i k Hk.
    apply lookup_seq in Hk as [Heq Hk]. simpl in Heq. subst i.
    assert (k < length (split_chunks size echo)) as Hk'
      by (by rewrite split_chunks_length).
    unfold fragment_at. cbn [fr_flag_mf fr_offset fr_data].
    rewrite split_chunks_start, split_chunks_lookup, split_chunks_length by done.
    fold n.
    assert (k * size / 8 = k * (size / 8)) as ->.
    { assert (size = size / 8 * 8) as Hs8 by (unfold size; by rewrite Nat.div_mul).
      rewrite Hs8 at 1. by rewrite Nat.mul_assoc, Nat.div_mul. }
    change (ip6_id_next t0) with (∅ : gmap Ip6Address N).
    by rewrite lookup_empty.
  - transitivity (concat (split_chunks size echo));
      [|by apply split_chunks_concat].
    unfold split_chunks. by fold n.
  - intros name. rewrite Hstats.
    change (packet_stats_tx t0)
      with (packet_stats_tx (foldr bump_tx fresh_tx ["udp__send"; "udp__pre_assemble"])).
    rewrite stat_bumps_tx. change (stat name (packet_stats_tx fresh_tx)) with 0.
    change ["ip6_ext_frag__pre_assemble"; "ip6__mtu_exceed__frag";
            "ip6__pre_assemble"; "udp__send"; "udp__pre_assemble"]
      with (["ip6_ext_frag__pre_assemble"; "ip6__mtu_exceed__frag";
             "ip6__pre_assemble"] ++ ["udp__send"; "udp__pre_assemble"]).
    rewrite occurrences_app. lia.
  - intros Hmtu Hlen. unfold n, size. rewrite Hmtu.
    change ((1500 - IP6_HEADER_LEN - IP6_EXT_FRAG_LEN) / 8 * 8) with 1448.
    symmetry. apply (Nat.div_unique _ _ _ (length echo + 1448 - 1 - 1448 * 5)); lia.
Qed.

End ScenariosMore.

(** ** The further theorems at work on the examples *)

Section WorkedMore.
Import Examples MoreExamples.

(** While the stack probes for 192.168.9.7, the answer of the host that
    owns the address adds it to the conflicts and changes nothing else. *)
Lemma phrx_arp_state_frame_example :
  ∃ self' calls,
    Arp._phrx_arp arp_attached arp_config arp_handler_probing
      (arp_packet STACK_MAC_ADDRESS arp_reply_probe)
    = (Arp.Returned self', calls)
    ∧ Arp.mac_unicast self' = STACK_MAC_ADDRESS
    ∧ Arp.ip4_host_candidate self' = [STACK_IP4_HOST].
Proof.
  eexists _, _. split; [reflexivity|].
  destruct (phrx_arp_state_frame arp_attached arp_config arp_handler_probing
              (arp_packet STACK_MAC_ADDRESS arp_reply_probe) _ _ eq_refl)
    as (Hmac & _ & Hcand & _).
  split; [exact Hmac|exact Hcand].
Defined.

(** The probe answer and the request of the peer, in either order. *)
Lemma phrx_arp_history_independent_example :
  ∃ self1 calls1 self2 calls2 s,
    Arp._phrx_arp arp_attached arp_config arp_handler_probing
      (arp_packet STACK_MAC_ADDRESS arp_reply_probe) = (Arp.Returned self1, calls1)
    ∧ Arp._phrx_arp arp_attached arp_config arp_handler_probing
        (arp_packet MAC_BROADCAST arp_reply_gratuitous) = (Arp.Returned self2, calls2)
    ∧ Arp._phrx_arp arp_attached arp_config self1
        (arp_packet MAC_BROADCAST arp_reply_gratuitous) = (Arp.Returned s, calls2)
    ∧ Arp._phrx_arp arp_attached arp_config self2
        (arp_packet STACK_MAC_ADDRESS arp_reply_probe) = (Arp.Returned s, calls1).
Proof.
  destruct (phrx_arp_history_independent arp_attached arp_config arp_handler_probing
              (arp_packet STACK_MAC_ADDRESS arp_reply_probe)
              (arp_packet MAC_BROADCAST arp_reply_gratuitous) _ _ _ _ eq_refl eq_refl)
    as (s & H21 & H12).
  eexists _, _, _, _, s. split; [reflexivity|]. split; [reflexivity|].
  split; [exact H21|exact H12].
Defined.

(** A count of 3: the loop is left within three rounds; the peer fails in
    the second. *)
Lemma daytime_count_bounds_rounds_example :
  ∃ e j, Daytime.sending_loop (λ _, true) (λ i, negb (i =? 1)) 4 0 3
         = Some (e, j) ∧ j ≤ 3.
Proof.
  destruct (daytime_count_bounds_rounds (λ _, true) (λ i, negb (i =? 1)) 4 3)
    as (e & j & Hloop & Hle & _); [lia | simpl; lia |].
  exists e, j. split; [exact Hloop|exact Hle].
Defined.

(** A count of 3 that runs out. *)
Lemma daytime_count_exhausted_after_example :
  Daytime.sending_loop (λ _, true) (λ _, true) 10 0 3
  = Some (Daytime.CountExhausted, 3)
  ∧ ∀ r, r < 3 → (λ _ : nat, true) r = true ∧ (λ _ : nat, true) r = true.
Proof.
  split; [reflexivity|].
  destruct (daytime_count_exhausted_after (λ _, true) (λ _, true) 10 3 3)
    as (_ & _ & Hgood); [reflexivity|exact Hgood].
Defined.


(** Five packets of different lengths, captured by the stand-in: the five
    expected fragments can only be prefixes of the last one. *)
Lemma harness_frags_match_prefixes_example :
  [byte_of 1] `prefix_of` [byte_of 1; byte_of 2].
Proof.
  destruct (harness_frags_match_prefixes (list Byte.byte) overwrite (λ _, false)
              (replicate 5 [byte_of 1; byte_of 2; byte_of 3])
              [[byte_of 1]; [byte_of 1; byte_of 2]; []; [byte_of 1];
               [byte_of 1; byte_of 2; byte_of 3]])
    as [_ Hprefix]; [vm_compute; reflexivity|].
  apply (Hprefix 0 1); [lia | lia | reflexivity | reflexivity | simpl; lia].
Defined.

Import Flows.

Lemma ip4_udp_to_closed_port_example :
  let st' :=
    phrx_ether plain_codec test_stack
      (ip4_intact_frame test_stack LOCNET_MAC_ADDRESS LOCNET_IP4_ADDRESS
         (address STACK_IP4_HOST) IP_PROTO_UDP 1%N closed_port_request_bytes) fresh in
  stat "udp__no_socket_match__respond_icmp4_unreachable" (packet_stats_rx st') = 1
  ∧ stat "icmp4__unreachable_port__send" (packet_stats_tx (tx st')) = 1
  ∧ length (tx_ring (tx st')) = 1.
Proof.
  destruct (ip4_udp_to_closed_port plain_codec test_stack
              LOCNET_MAC_ADDRESS LOCNET_IP4_ADDRESS (address STACK_IP4_HOST) 1%N
              closed_port_request_bytes closed_port_request)
    as (Hrx & Htx & Hring & _);
    [ apply list_elem_of_singleton; reflexivity
    | vm_compute; reflexivity | reflexivity
    | left; discriminate
    | reflexivity | vm_compute; reflexivity | vm_compute; reflexivity
    | vm_compute; lia | ].
  split; [by rewrite Hrx|]. split; [by rewrite Htx|by rewrite Hring].
Defined.

Lemma ip6_udp_to_closed_port_example :
  let st' :=
    phrx_ether plain_codec test_stack
      (ip6_intact_frame test_stack LOCNET_MAC_ADDRESS LOCNET_IP6_ADDRESS
         (address6 STACK_IP6_HOST) IP_PROTO_UDP closed_port_request_bytes) fresh in
  stat "udp__no_socket_match__respond_icmp6_unreachable" (packet_stats_rx st') = 1
  ∧ stat "icmp6__unreachable_port__send" (packet_stats_tx (tx st')) = 1
  ∧ length (tx_ring (tx st')) = 1.
Proof.
  destruct (ip6_udp_to_closed_port plain_codec test_stack
              LOCNET_MAC_ADDRESS LOCNET_IP6_ADDRESS (address6 STACK_IP6_HOST)
              closed_port_request_bytes closed_port_request)
    as (Hrx & Htx & Hring & _);
    [ apply list_elem_of_singleton; reflexivity
    | vm_compute; reflexivity | reflexivity
    | left; discriminate
    | reflexivity | vm_compute; reflexivity | vm_compute; reflexivity
    | vm_compute; lia | ].
  split; [by rewrite Hrx|]. split; [by rewrite Htx|by rewrite Hring].
Defined.

Lemma ip4_udp_echo_intact_example :
  let st' :=
    phrx_ether plain_codec test_stack
      (ip4_intact_frame test_stack LOCNET_MAC_ADDRESS LOCNET_IP4_ADDRESS
         (address STACK_IP4_HOST) IP_PROTO_UDP 1%N (echo_request_bytes 27)) fresh in
  stat "udp__echo_native__respond_udp" (packet_stats_rx st') = 1
  ∧ stat "ip4__mtu_ok__send" (packet_stats_tx (tx st')) = 1
  ∧ length (tx_ring (tx st')) = 1.
Proof.
  destruct (ip4_udp_echo_intact plain_codec test_stack
              LOCNET_MAC_ADDRESS LOCNET_IP4_ADDRESS (address STACK_IP4_HOST) 1%N
              (echo_request_bytes 27) (echo_request 27))
    as (Hrx & Htx & Hring & _);
    [ apply list_elem_of_singleton; reflexivity
    | vm_compute; reflexivity | reflexivity | reflexivity | reflexivity
    | reflexivity | vm_compute; reflexivity | vm_compute; reflexivity
    | vm_compute; lia | ].
  split; [by rewrite Hrx|]. split; [by rewrite Htx|by rewrite Hring].
Defined.

Lemma ip6_udp_echo_intact_example :
  let st' :=
    phrx_ether plain_codec test_stack
      (ip6_intact_frame test_stack LOCNET_MAC_ADDRESS LOCNET_IP6_ADDRESS
         (address6 STACK_IP6_HOST) IP_PROTO_UDP (echo_request_bytes 27)) fresh in
  stat "udp__echo_native__respond_udp" (packet_stats_rx st') = 1
  ∧ stat "ip6__mtu_ok__send" (packet_stats_tx (tx st')) = 1
  ∧ length (tx_ring (tx st')) = 1.
Proof.
  destruct (ip6_udp_echo_intact plain_codec test_stack
              LOCNET_MAC_ADDRESS LOCNET_IP6_ADDRESS (address6 STACK_IP6_HOST)
              (echo_request_bytes 27) (echo_request 27))
    as (Hrx & Htx & Hring & _);
    [ apply list_elem_of_singleton; reflexivity
    | vm_compute; reflexivity | reflexivity | reflexivity | reflexivity
    | reflexivity | vm_compute; reflexivity | vm_compute; reflexivity
    | vm_compute; lia | ].
  split; [by rewrite Hrx|]. split; [by rewrite Htx|by rewrite Hring].
Defined.

(** The order 1, 2, 0, 4, 3 of the test module. *)
Lemma ip4_udp_echo_rx_frag_once_example :
  let st' :=
    receive plain_codec test_stack
      (ip4_fragment_frame test_stack LOCNET_MAC_ADDRESS LOCNET_IP4_ADDRESS
         (address STACK_IP4_HOST) IP_PROTO_UDP 1%N five_pieces
       <$> [1; 2; 0; 4] ++ 3 :: []) fresh in
  stat "ip4__frag" (packet_stats_rx st') = 5
  ∧ stat "ip4__defrag" (packet_stats_rx st') = 1
  ∧ stat "udp__echo_native__respond_udp" (packet_stats_rx st') = 1.
Proof.
  destruct (ip4_udp_echo_rx_frag_once plain_codec test_stack
              LOCNET_MAC_ADDRESS LOCNET_IP4_ADDRESS (address STACK_IP4_HOST) 1%N
              five_pieces (echo_request 27) [1; 2; 0; 4] 3 [])
    as (Hrx & _);
    [ apply list_elem_of_singleton; reflexivity
    | vm_compute; reflexivity | vm_compute; lia | vm_compute; reflexivity
    | reflexivity | reflexivity | reflexivity
    | repeat constructor
    | vm_compute; reflexivity | vm_compute; reflexivity | vm_compute; reflexivity | ].
  split; [exact (Hrx "ip4__frag")|].
  split; [exact (Hrx "ip4__defrag")|exact (Hrx "udp__echo_native__respond_udp")].
Defined.

(** A datagram of 6000 bytes of payload over IPv6: its echo of 6008 bytes
    leaves in five fragments of at most 1448 bytes. *)
Lemma ip6_udp_echo_tx_frag_example :
  let st' :=
    phrx_ether plain_codec test_stack
      (ip6_intact_frame test_stack LOCNET_MAC_ADDRESS LOCNET_IP6_ADDRESS
         (address6 STACK_IP6_HOST) IP_PROTO_UDP (echo_request_bytes (60 * 100)))
      fresh in
  length (tx_ring (tx st')) = 5
  ∧ stat "ip6__pre_assemble" (packet_stats_tx (tx st')) = 6
  ∧ stat "ip6_ext_frag__send" (packet_stats_tx (tx st')) = 5.
Proof.
  destruct (ip6_udp_echo_tx_frag plain_codec test_stack
              LOCNET_MAC_ADDRESS LOCNET_IP6_ADDRESS (address6 STACK_IP6_HOST)
              (echo_request_bytes (60 * 100)) (echo_request (60 * 100)))
    as (Hring & _ & Hstats & Hfive);
    [ apply list_elem_of_singleton; reflexivity
    | vm_compute; reflexivity | reflexivity | reflexivity | reflexivity
    | reflexivity | vm_compute; reflexivity | vm_compute; reflexivity
    | vm_compute; lia | vm_compute; lia | ].
  split; [by rewrite Hring, length_fmap, length_seq|].
  split; [exact (Hstats "ip6__pre_assemble")|exact (Hstats "ip6_ext_frag__send")].
Defined.

End WorkedMore.
